(** * Low-rank cost geometry (ott/geometry/low_rank.py)

    A shallow embedding of [LRCGeometry] and [add_lrc_geom] together with
    the properties stated about them.

    Conventions of the embedding.
    - Array entries, the bias and float scale factors are real numbers:
      the development is about the exact-arithmetic meaning of the
      array code.  [jnp] produces [inf]/[nan] for a division by zero or
      the square root of a negative number; these values have no
      counterpart in [R], so every statement that depends on a quotient
      or a square root carries the side condition under which the float
      computation stays finite.
    - A two-dimensional [jnp.ndarray] is its column count together with
      its list of rows; one-dimensional arrays are lists.
    - Python exceptions are values of [exn]; a computation that may
      raise returns a [result].
    - [**kwargs] dictionaries are finite maps from strings to Python
      objects.
    - The base class [Geometry] is not part of the sources: its
      constructor is a parameter of the development, and the generic
      methods the class falls back on are modelled from the spec. *)

From Stdlib Require Import Reals Lra Lia List ZArith String.
From stdpp Require Import base gmap strings.
Import ListNotations.
Open Scope R_scope.

(* ================================================================== *)
(** ** Python values, exceptions and the exception monad *)
(* ================================================================== *)

Inductive exn : Type :=
| AssertionError
| TypeError (msg : string)
| ValueError (msg : string)
| NotImplementedError (msg : string).

Inductive result (A : Type) : Type :=
| OK (a : A)
| Raise (e : exn).
Arguments OK {A} a.
Arguments Raise {A} e.

Definition bind {A B : Type} (m : result A) (k : A -> result B) : result B :=
  match m with
  | OK a => k a
  | Raise e => Raise e
  end.

Notation "'do' x <- m ; k" := (bind m (fun x => k))
  (at level 10, x name, m at level 100, k at level 200).

(** The Python objects that can be stored in [_scale_cost] or in the
    keyword dictionary.  [PyObject] stands for an instance of any other
    class (an array, a user-defined object): [addr] is its identity,
    [eq_str s] is the outcome of the truth test of [o == s] for a string
    [s], which the object's own [__eq__] decides ([False] for a class
    that compares by identity; an array comparison may raise when its
    truth value is taken), and [str] is what an f-string prints. *)
Inductive pyobj : Type :=
| PyNone
| PyBool (b : bool)
| PyInt (z : Z)
| PyFloat (x : R)
| PyStr (s : string)
| PyObject (addr : nat) (eq_str : string -> result bool) (str : string).

(** [isinstance(o, float)]: [bool] and [int] are not subclasses of [float]. *)
Definition isinstance_float (o : pyobj) : bool :=
  match o with PyFloat _ => true | _ => false end.

(** [isinstance(o, str)]. *)
Definition isinstance_str (o : pyobj) : bool :=
  match o with PyStr _ => true | _ => false end.

(** The truth test of [o == s] for a string literal [s]: a built-in
    value other than a string is never equal to it; an instance of
    another class answers by itself. *)
Definition py_eq_str (o : pyobj) (s : string) : result bool :=
  match o with
  | PyStr t => OK (String.eqb t s)
  | PyObject _ eq_str _ => eq_str s
  | _ => OK false
  end.

(** [str(o)] inside an f-string, for the objects that reach one. *)
Definition py_format (o : pyobj) : string :=
  match o with
  | PyStr t => t
  | PyObject _ _ str => str
  | _ => EmptyString
  end.

(* ================================================================== *)
(** ** Arrays and the [jnp] operations used by the class *)
(* ================================================================== *)

Record ndarray : Type := mk_ndarray { ncols : nat; rows : list (list R) }.

Definition nrows (A : ndarray) : nat := length (rows A).

(** [A.shape] *)
Definition shape_of (A : ndarray) : nat * nat := (nrows A, ncols A).

(** Every row of an array has [ncols] entries. *)
Definition wf (A : ndarray) : Prop :=
  Forall (fun r => length r = ncols A) (rows A).

(** [A[i, j]] *)
Definition cell (A : ndarray) (i j : nat) : R := nth j (nth i (rows A) []) 0.

(** Column [j] of [A]. *)
Definition column (A : ndarray) (j : nat) : list R :=
  map (fun r => nth j r 0) (rows A).

(** The [n] x [m] array with entries [f i j]. *)
Definition build (n m : nat) (f : nat -> nat -> R) : ndarray :=
  {| ncols := m; rows := map (fun i => map (f i) (seq 0 m)) (seq 0 n) |}.

(** Element-wise application of a scalar function. *)
Definition map_entries (f : R -> R) (A : ndarray) : ndarray :=
  {| ncols := ncols A; rows := map (map f) (rows A) |}.

Definition jnp_abs (A : ndarray) : ndarray := map_entries Rabs A.

(** [A * c] and [A + c] with a scalar [c] broadcast over the array. *)
Definition mul_scalar (A : ndarray) (c : R) : ndarray :=
  map_entries (fun x => x * c) A.
Definition add_scalar (A : ndarray) (c : R) : ndarray :=
  map_entries (fun x => x + c) A.

(** [A.T] *)
Definition jnp_transpose (A : ndarray) : ndarray :=
  build (ncols A) (nrows A) (fun k i => cell A i k).

(** [jnp.max(A)]: a reduction without identity, it raises on an array
    without entries. *)
Definition jnp_max (A : ndarray) : result R :=
  match concat (rows A) with
  | [] => Raise (ValueError
            "zero-size array to reduction operation max which has no identity")
  | x :: l => OK (fold_left Rmax l x)
  end.

Definition jnp_ones (n : nat) : list R := repeat 1 n.
Definition jnp_ones_like (v : list R) : list R := jnp_ones (length v).

(** [jnp.sum(v)] *)
Definition jnp_sum (v : list R) : R := fold_right Rplus 0 v.

(** Inner product of two one-dimensional arrays of equal length. *)
Fixpoint vdot (a b : list R) : R :=
  match a, b with
  | x :: a', y :: b' => x * y + vdot a' b'
  | _, _ => 0
  end.

(** Element-wise sum of two one-dimensional arrays of equal length. *)
Fixpoint vadd (a b : list R) : list R :=
  match a, b with
  | x :: a', y :: b' => (x + y) :: vadd a' b'
  | _, _ => []
  end.

Definition shape_error : exn := TypeError "incompatible shapes".

(** [jnp.dot] at the three argument ranks the class uses. *)
Definition jnp_dot_vv (a b : list R) : result R :=
  if (length a =? length b)%nat then OK (vdot a b) else Raise shape_error.

Definition jnp_dot_mv (A : ndarray) (v : list R) : result (list R) :=
  if (ncols A =? length v)%nat
  then OK (map (fun r => vdot r v) (rows A))
  else Raise shape_error.

Definition jnp_dot_vm (v : list R) (A : ndarray) : result (list R) :=
  if (length v =? nrows A)%nat
  then OK (map (fun j => vdot v (column A j)) (seq 0 (ncols A)))
  else Raise shape_error.

(** [jnp.matmul(A, B)] *)
Definition jnp_matmul (A B : ndarray) : result ndarray :=
  if (ncols A =? nrows B)%nat
  then OK (build (nrows A) (ncols B)
             (fun i j => vdot (nth i (rows A) []) (column B j)))
  else Raise shape_error.

(** [jnp.concatenate((A, B), axis=1)] *)
Definition jnp_concatenate1 (A B : ndarray) : result ndarray :=
  if (nrows A =? nrows B)%nat
  then OK (build (nrows A) (ncols A + ncols B)
             (fun i j => if (j <? ncols A)%nat then cell A i j
                         else cell B i (j - ncols A)))
  else Raise shape_error.

(** [jnp.where(c, x, y)] with a scalar condition. *)
Definition jnp_where {A : Type} (c : bool) (x y : A) : A := if c then x else y.

(** A three-dimensional array: its shape and its entries. *)
Record ndarray3 : Type :=
  mk_ndarray3 { dim0 : nat; dim1 : nat; dim2 : nat; at3 : nat -> nat -> nat -> R }.

(** [A[:, :, None] * A[:, None, :]] *)
Definition outer_rows (A : ndarray) : ndarray3 :=
  {| dim0 := nrows A; dim1 := ncols A; dim2 := ncols A;
     at3 := fun i k l => cell A i k * cell A i l |}.

(** [T.reshape((n, c))], in row-major order. *)
Definition jnp_reshape (T : ndarray3) (n c : nat) : result ndarray :=
  if (dim0 T * dim1 T * dim2 T =? n * c)%nat
  then OK (build n c (fun i j =>
             let flat := (i * c + j)%nat in
             at3 T (flat / (dim1 T * dim2 T))%nat
                   ((flat / dim2 T) mod dim1 T)%nat
                   (flat mod dim2 T)%nat))
  else Raise shape_error.

(* ================================================================== *)
(** ** The class [LRCGeometry] *)
(* ================================================================== *)

(** The instance attributes that the class itself sets and reads; the
    attributes that belong to the base class are not represented. *)
Record LRCGeometry : Type := mk_LRCGeometry {
  _cost_1 : ndarray;
  _cost_2 : ndarray;
  _bias : R;
  _kwargs : gmap string pyobj;
  _scale_cost : pyobj
}.

(** Evaluation of the code on concrete arrays. *)
Ltac evaluate :=
  cbv -[Rplus Rmult Ropp Rminus Rdiv Rinv sqrt Rabs Rmax IZR INR];
  repeat f_equal; rewrite ?sqrt_1; try lra.

Section Base.

(** [super().__init__( **kwargs)]: the constructor of the base class,
    which is not part of the sources at hand, is a parameter.  It is
    called after [self._kwargs = kwargs] and before
    [self._scale_cost = scale_cost]; what the class can observe of it is
    the dictionary it leaves in the attribute [_kwargs] (the one it was
    given, if the base class does not assign that attribute).  It sets
    none of [_cost_1], [_cost_2] and [_bias]. *)
Variable Geometry_init : gmap string pyobj -> gmap string pyobj.

(** The named parameters of [__init__]: a keyword of one of these names
    is bound to the parameter and can never end up in [**kwargs]. *)
Definition init_params : list string :=
  ["cost_1"; "cost_2"; "bias"; "scale_cost"]%string.

Definition no_param_clash (kwargs : gmap string pyobj) : bool :=
  forallb (fun k => match kwargs !! k with None => true | Some _ => false end)
          init_params.

(** The call [LRCGeometry(cost_1, cost_2, bias=bias, scale_cost=scale_cost,
    **kwargs)].  Passing in [**kwargs] a name that is also a parameter is
    a [TypeError] of the call itself; then [__init__] runs its assertion,
    stores its arguments and calls the constructor of the base class on
    [kwargs]. *)
Definition LRCGeometry_init (cost_1 cost_2 : ndarray) (bias : R)
    (scale_cost : pyobj) (kwargs : gmap string pyobj) : result LRCGeometry :=
  if negb (no_param_clash kwargs)
  then Raise (TypeError "got multiple values for keyword argument")
  else if negb (ncols cost_1 =? ncols cost_2)%nat
  then Raise AssertionError
  else OK {| _cost_1 := cost_1; _cost_2 := cost_2; _bias := bias;
             _kwargs := Geometry_init kwargs; _scale_cost := scale_cost |}.

(** [cost_rank] *)
Definition cost_rank (g : LRCGeometry) : nat := ncols (_cost_1 g).

(** [shape] *)
Definition shape (g : LRCGeometry) : nat * nat :=
  (nrows (_cost_1 g), nrows (_cost_2 g)).

(** The property [scale_cost]. *)
Definition scale_cost (g : LRCGeometry) : result R :=
  match _scale_cost g with
  | PyFloat x => OK x
  | sc =>
    do is_max_bound <- py_eq_str sc "max_bound";
    if is_max_bound then
      do a <- jnp_max (jnp_abs (_cost_1 g));
      do b <- jnp_max (jnp_abs (_cost_2 g));
      OK (1 / (a * b + Rabs (_bias g)))
    else
    do is_mean <- py_eq_str sc "mean";
    if is_mean then
      do factor1 <- jnp_dot_vm (jnp_ones (fst (shape g))) (_cost_1 g);
      do factor2 <- jnp_dot_mv (jnp_transpose (_cost_2 g))
                               (jnp_ones (snd (shape g)));
      do d <- jnp_dot_vv factor1 factor2;
      let mean := d / INR (fst (shape g) * snd (shape g)) + _bias g in
      OK (1 / mean)
    else
    do is_max_cost <- py_eq_str sc "max_cost";
    if is_max_cost then
      Raise (NotImplementedError
               ("Scaling " ++ py_format sc ++ " not implemented."))
    else if isinstance_str sc then
      Raise (ValueError ("Scaling " ++ py_format sc ++ " not provided."))
    else OK 1
  end.

(** The properties [cost_1], [cost_2], [bias] and [cost_matrix]. *)
Definition cost_1 (g : LRCGeometry) : result ndarray :=
  do s <- scale_cost g; OK (mul_scalar (_cost_1 g) (sqrt s)).

Definition cost_2 (g : LRCGeometry) : result ndarray :=
  do s <- scale_cost g; OK (mul_scalar (_cost_2 g) (sqrt s)).

Definition bias (g : LRCGeometry) : result R :=
  do s <- scale_cost g; OK (_bias g * s).

Definition cost_matrix (g : LRCGeometry) : result ndarray :=
  do c1 <- cost_1 g;
  do c2 <- cost_2 g;
  do p <- jnp_matmul c1 (jnp_transpose c2);
  do b <- bias g;
  OK (add_scalar p b).

(** Modelled from the spec: [Geometry._apply_cost_to_vec], the generic
    dense implementation of the base class, which is not part of the
    sources at hand.  It materializes the cost matrix (transposed when
    the vector has the length of the first axis), applies [fn]
    element-wise, then multiplies. *)
Definition Geometry_apply_cost_to_vec (g : LRCGeometry) (vec : list R)
    (axis : Z) (fn : option (R -> R)) : result (list R) :=
  do C <- cost_matrix g;
  let matrix := if (axis =? 0)%Z then jnp_transpose C else C in
  let matrix := match fn with Some f => map_entries f matrix | None => matrix end in
  jnp_dot_mv matrix vec.

(** Modelled from the spec: [Geometry.apply_square_cost], the generic
    dense fallback of the base class: element-wise square of the cost
    matrix, then multiply. *)
Definition Geometry_apply_square_cost (g : LRCGeometry) (arr : list R)
    (axis : Z) : result (list R) :=
  do C <- cost_matrix g;
  let matrix := if (axis =? 0)%Z then jnp_transpose C else C in
  jnp_dot_mv (map_entries (fun x => x ^ 2) matrix) arr.

Section Methods.

(** [geometry.is_linear] belongs to the base module; the class only
    calls it on a function that is not [None]. *)
Variable is_linear : (R -> R) -> bool.

(** The local function [efficient_apply] of [_apply_cost_to_vec]. *)
Definition efficient_apply (g : LRCGeometry) (vec : list R) (axis : Z)
    (fn : option (R -> R)) : result (list R) :=
  do c1 <- (if (axis =? 1)%Z then cost_1 g else cost_2 g);
  do c2 <- (if (axis =? 1)%Z then cost_2 g else cost_1 g);
  let c2 := match fn with Some f => map_entries f c2 | None => c2 end in
  do b <- bias g;
  let bias := match fn with Some f => f b | None => b end in
  do inner <- jnp_dot_mv (jnp_transpose c2) vec;
  do out <- jnp_dot_mv c1 inner;
  OK (vadd out (map (fun one => bias * jnp_sum vec * one) (jnp_ones_like out))).

(** [_apply_cost_to_vec]: both branches of [jnp.where] are evaluated
    before one of them is selected. *)
Definition _apply_cost_to_vec (g : LRCGeometry) (vec : list R) (axis : Z)
    (fn : option (R -> R)) : result (list R) :=
  let c := match fn with None => true | Some f => is_linear f end in
  do fast <- efficient_apply g vec axis fn;
  do slow <- Geometry_apply_cost_to_vec g vec axis fn;
  OK (jnp_where c fast slow).

(** Modelled from the spec: [Geometry.apply_cost] on a vector, the
    ordinary vector application of the geometry it is called on. *)
Definition Geometry_apply_cost (g : LRCGeometry) (arr : list R) (axis : Z)
    : result (list R) :=
  _apply_cost_to_vec g arr axis None.

(** [apply_square_cost] *)
Definition apply_square_cost (g : LRCGeometry) (arr : list R) (axis : Z)
    : result (list R) :=
  let '(n, m) := shape g in
  let r := cost_rank g in
  if (n * m <? (n + m) * r ^ 2)%nat
  then Geometry_apply_square_cost g arr axis
  else
    do c1 <- cost_1 g;
    let new_cost_1 := outer_rows c1 in
    do c2 <- cost_2 g;
    let new_cost_2 := outer_rows c2 in
    do f1 <- jnp_reshape new_cost_1 n (r ^ 2);
    do f2 <- jnp_reshape new_cost_2 m (r ^ 2);
    do g2 <- LRCGeometry_init f1 f2 0 PyNone ∅;
    Geometry_apply_cost g2 arr axis.

End Methods.

(** [apply_cost_1] and [apply_cost_2] *)
Definition apply_cost_1 (g : LRCGeometry) (vec : list R) (axis : Z)
    : result (list R) :=
  do c <- cost_1 g;
  jnp_dot_mv (if (axis =? 0)%Z then c else jnp_transpose c) vec.

Definition apply_cost_2 (g : LRCGeometry) (vec : list R) (axis : Z)
    : result (list R) :=
  do c <- cost_2 g;
  jnp_dot_mv (if (axis =? 0)%Z then c else jnp_transpose c) vec.




(** [add_lrc_geom] *)
Definition add_lrc_geom (geom1 geom2 : LRCGeometry) : result LRCGeometry :=
  do a1 <- cost_1 geom1;
  do a2 <- cost_1 geom2;
  do c1 <- jnp_concatenate1 a1 a2;
  do b1 <- cost_2 geom1;
  do b2 <- cost_2 geom2;
  do c2 <- jnp_concatenate1 b1 b2;
  LRCGeometry_init c1 c2 0 PyNone (_kwargs geom1).

(* ================================================================== *)
(** ** Reference notions used to state the properties *)
(* ================================================================== *)

(** The finite sum [f 0 + ... + f (n-1)]. *)
Fixpoint big_sum (f : nat -> R) (n : nat) : R :=
  match n with
  | O => 0
  | S k => big_sum f k + f k
  end.

(** Entry [(i, j)] of [A . B^T]: the inner product of row [i] of [A]
    and row [j] of [B]. *)
Definition product_entry (A B : ndarray) (i j : nat) : R :=
  big_sum (fun k => cell A i k * cell B j k) (ncols A).

(** The dense product [C . v] and the dense product [C^T . v]. *)
Definition dense_matvec (C : ndarray) (v : list R) : list R :=
  map (fun i => big_sum (fun j => cell C i j * nth j v 0) (ncols C))
      (seq 0 (nrows C)).

Definition dense_transpose_matvec (C : ndarray) (v : list R) : list R :=
  map (fun j => big_sum (fun i => cell C i j * nth i v 0) (nrows C))
      (seq 0 (ncols C)).

(** The product of the cost matrix with a vector, along an axis:
    [axis = 0] takes a vector of the length of the first axis. *)
Definition dense_apply (C : ndarray) (axis : Z) (v : list R) : list R :=
  if (axis =? 0)%Z then dense_transpose_matvec C v else dense_matvec C v.

(** The element-wise square [C ** 2] and the sum of two matrices. *)
Definition square_entries (C : ndarray) : ndarray :=
  build (nrows C) (ncols C) (fun i j => cell C i j * cell C i j).

Definition matrix_add (C D : ndarray) : ndarray :=
  build (nrows C) (ncols C) (fun i j => cell C i j + cell D i j).

(** The outer-product expansion of a factor with [r] columns: the
    array with [r ^ 2] columns whose column [k * r + l] holds the product
    of columns [k] and [l]; and the augmented geometry of two factors. *)
Definition expansion (f : ndarray) : ndarray :=
  build (nrows f) (ncols f ^ 2)
    (fun i j => cell f i (j / ncols f) * cell f i (j mod ncols f)).

Definition augmented_geometry (f1 f2 : ndarray) : LRCGeometry :=
  {| _cost_1 := expansion f1; _cost_2 := expansion f2; _bias := 0;
     _kwargs := Geometry_init ∅; _scale_cost := PyNone |}.

(** Column-wise concatenation: every row of the first array followed by
    the row of the second. *)
Definition hconcat (A B : ndarray) : ndarray :=
  {| ncols := ncols A + ncols B; rows := zip_with app (rows A) (rows B) |}.

(** [A.size]: the number of entries. *)
Definition array_size (A : ndarray) : nat := length (concat (rows A)).

(** The mean of the unscaled cost from the factors alone:
    [(1^T . A) . (B^T . 1) / (n * m) + bias]. *)
Definition raw_mean (g : LRCGeometry) : R :=
  big_sum (fun k =>
     big_sum (fun i => cell (_cost_1 g) i k) (nrows (_cost_1 g)) *
     big_sum (fun j => cell (_cost_2 g) j k) (nrows (_cost_2 g)))
    (ncols (_cost_1 g))
  / (INR (nrows (_cost_1 g)) * INR (nrows (_cost_2 g)))
  + _bias g.

(** The mean of all entries of a matrix. *)
Definition matrix_mean (C : ndarray) : R :=
  big_sum (fun i => big_sum (fun j => cell C i j) (ncols C)) (nrows C)
  / (INR (nrows C) * INR (ncols C)).

(** The largest absolute value of an entry ([0] bounds it from below). *)
Definition max_abs (A : ndarray) : R :=
  fold_right Rmax 0 (map Rabs (concat (rows A))).

(** The bound [max |A| * max |B| + |bias|] of the [max_bound] policy. *)
Definition raw_bound (g : LRCGeometry) : R :=
  max_abs (_cost_1 g) * max_abs (_cost_2 g) + Rabs (_bias g).

(** What [__init__] establishes, for arrays that are rectangular. *)
Definition constructed (g : LRCGeometry) : Prop :=
  wf (_cost_1 g) /\ wf (_cost_2 g) /\
  ncols (_cost_1 g) = ncols (_cost_2 g) /\
  no_param_clash (_kwargs g) = true.

(** The length of vector that an axis selects. *)
Definition axis_length (g : LRCGeometry) (axis : Z) : nat :=
  if (axis =? 0)%Z then fst (shape g) else snd (shape g).

(* ================================================================== *)
(** ** The property [is_symmetric] *)
(* ================================================================== *)

(** [x == y] on two array entries. *)
Definition Reqb (x y : R) : bool := if Req_dec_T x y then true else false.

(** Broadcasting of one axis: two lengths are compatible when they are
    equal or one of them is 1; an axis of length 1 is read at index 0. *)
Definition broadcast_ok (a b : nat) : bool :=
  (a =? b)%nat || (a =? 1)%nat || (b =? 1)%nat.
Definition broadcast_len (a b : nat) : nat := if (a =? 1)%nat then b else a.
Definition broadcast_idx (a i : nat) : nat := if (a =? 1)%nat then O else i.

(** [A == B] on two-dimensional arrays. *)
Definition jnp_equal (A B : ndarray) : result (list (list bool)) :=
  if broadcast_ok (nrows A) (nrows B) && broadcast_ok (ncols A) (ncols B)
  then OK (map (fun i =>
             map (fun j =>
                Reqb (cell A (broadcast_idx (nrows A) i)
                             (broadcast_idx (ncols A) j))
                     (cell B (broadcast_idx (nrows B) i)
                             (broadcast_idx (ncols B) j)))
               (seq 0 (broadcast_len (ncols A) (ncols B))))
             (seq 0 (broadcast_len (nrows A) (nrows B))))
  else Raise shape_error.

(** [jnp.all] of a two-dimensional boolean array. *)
Definition jnp_all (M : list (list bool)) : bool :=
  forallb (forallb (fun b : bool => b)) M.

(** The property [is_symmetric]; [and] evaluates its second operand only
    when the first one holds. *)
Definition is_symmetric (g : LRCGeometry) : result bool :=
  if (nrows (_cost_1 g) =? nrows (_cost_2 g))%nat
  then do e <- jnp_equal (_cost_1 g) (_cost_2 g); OK (jnp_all e)
  else OK false.

(* ================================================================== *)
(** ** Further reference notions *)
(* ================================================================== *)

(** The cost before scaling: [A . B^T + bias] on the raw factors. *)
Definition unscaled_cost (g : LRCGeometry) : ndarray :=
  build (fst (shape g)) (snd (shape g))
    (fun i j => product_entry (_cost_1 g) (_cost_2 g) i j + _bias g).

(** A function on the reals that preserves sums and scalings. *)
Definition linear_fn (f : R -> R) : Prop :=
  (forall x y, f (x + y) = f x + f y) /\ (forall a x, f (a * x) = a * f x).

(* ================================================================== *)
(** ** Sample geometries *)
(* ================================================================== *)

(** A 1 x 2 geometry of rank 2 with bias 1 and no scaling. *)
Definition geom_a : LRCGeometry :=
  {| _cost_1 := mk_ndarray 2 [[1; 2]];
     _cost_2 := mk_ndarray 2 [[3; 4]; [5; 6]];
     _bias := 1; _kwargs := ∅; _scale_cost := PyNone |}.

(** The same factors without bias: 1 * 2 < (1 + 2) * 2 ^ 2, so the
    square of the cost is applied by the dense fallback. *)
Definition geom_b : LRCGeometry :=
  {| _cost_1 := mk_ndarray 2 [[1; 2]];
     _cost_2 := mk_ndarray 2 [[3; 4]; [5; 6]];
     _bias := 0; _kwargs := ∅; _scale_cost := PyNone |}.

(** A 2 x 2 geometry of rank 1 without bias: 2 * 2 >= (2 + 2) * 1 ^ 2,
    so the square of the cost is applied through the augmented geometry. *)
Definition geom_c : LRCGeometry :=
  {| _cost_1 := mk_ndarray 1 [[1]; [2]];
     _cost_2 := mk_ndarray 1 [[3]; [4]];
     _bias := 0; _kwargs := ∅; _scale_cost := PyNone |}.

(** A second geometry of the shape of [geom_b], and one of another shape. *)
Definition geom_d : LRCGeometry :=
  {| _cost_1 := mk_ndarray 1 [[7]];
     _cost_2 := mk_ndarray 1 [[8]; [9]];
     _bias := 0; _kwargs := ∅; _scale_cost := PyFloat 4 |}.

(** An array with one row and no column. *)
Definition no_columns : ndarray := mk_ndarray 0 [[]].

(** Factors and bias all zero, under the [max_bound] policy. *)
Definition geom_zero : LRCGeometry :=
  {| _cost_1 := mk_ndarray 1 [[0]];
     _cost_2 := mk_ndarray 1 [[0]];
     _bias := 0; _kwargs := ∅; _scale_cost := PyStr "max_bound" |}.

(** A geometry under the [max_bound] policy with bound 2 * 3 + 2 = 8. *)
Definition geom_bound : LRCGeometry :=
  {| _cost_1 := mk_ndarray 1 [[-2]; [1]];
     _cost_2 := mk_ndarray 1 [[3]];
     _bias := 2; _kwargs := ∅; _scale_cost := PyStr "max_bound" |}.

(** A geometry under the [mean] policy whose unscaled cost is [[-1]]. *)
Definition geom_neg : LRCGeometry :=
  {| _cost_1 := mk_ndarray 1 [[-1]];
     _cost_2 := mk_ndarray 1 [[1]];
     _bias := 0; _kwargs := ∅; _scale_cost := PyStr "mean" |}.

(** A geometry under the [mean] policy with unscaled mean 2 * 1 + 2 = 4. *)
Definition geom_mean : LRCGeometry :=
  {| _cost_1 := mk_ndarray 1 [[2]];
     _cost_2 := mk_ndarray 1 [[1]];
     _bias := 2; _kwargs := ∅; _scale_cost := PyStr "mean" |}.

(** Geometries with the unimplemented policy, an unknown policy and an
    integer in place of the scale. *)
Definition geom_max_cost : LRCGeometry :=
  {| _cost_1 := mk_ndarray 1 [[2]];
     _cost_2 := mk_ndarray 1 [[1]];
     _bias := 0; _kwargs := ∅; _scale_cost := PyStr "max_cost" |}.

Definition geom_int : LRCGeometry :=
  {| _cost_1 := mk_ndarray 1 [[2]];
     _cost_2 := mk_ndarray 1 [[1]];
     _bias := 0; _kwargs := ∅; _scale_cost := PyInt 2 |}.

(** An object that is neither a float nor a string and whose [__eq__]
    answers [True] to everything, in place of the scale. *)
Definition geom_eq_all : LRCGeometry :=
  {| _cost_1 := mk_ndarray 1 [[2]];
     _cost_2 := mk_ndarray 1 [[1]];
     _bias := 0; _kwargs := ∅;
     _scale_cost := PyObject 0 (fun _ => OK true) "obj" |}.

(** A base constructor that completes the dictionary it is given with
    two defaults. *)
Definition with_defaults (kw : gmap string pyobj) : gmap string pyobj :=
  kw ∪ <["init" := PyNone]> (<["decay" := PyNone]> ∅).

(** A square geometry with twice the same factor, and a scale of 4. *)
Definition geom_sym : LRCGeometry :=
  {| _cost_1 := mk_ndarray 2 [[1; 2]; [3; 4]];
     _cost_2 := mk_ndarray 2 [[1; 2]; [3; 4]];
     _bias := 1; _kwargs := ∅; _scale_cost := PyFloat 4 |}.

(** A 2 x 2 geometry of rank 1 with a bias. *)
Definition geom_biased : LRCGeometry :=
  {| _cost_1 := mk_ndarray 1 [[1]; [2]];
     _cost_2 := mk_ndarray 1 [[3]; [4]];
     _bias := 5; _kwargs := ∅; _scale_cost := PyNone |}.

(** A rank-0 geometry under the [max_bound] policy. *)
Definition geom_rank0 : LRCGeometry :=
  {| _cost_1 := no_columns; _cost_2 := no_columns;
     _bias := 1; _kwargs := ∅; _scale_cost := PyStr "max_bound" |}.

(* ================================================================== *)
(** ** Finite sums *)
(* ================================================================== *)

Lemma big_sum_ext (f h : nat -> R) (n : nat) :
  (forall k, (k < n)%nat -> f k = h k) -> big_sum f n = big_sum h n.
Proof.
  induction n as [|n IH]; intros E; simpl; [reflexivity|].
  rewrite IH by (intros; apply E; lia).
  rewrite (E n) by lia. reflexivity.
Qed.

Lemma big_sum_zero (n : nat) : big_sum (fun _ => 0) n = 0.
Proof. induction n as [|n IH]; simpl; [|rewrite IH]; lra. Qed.

Lemma big_sum_plus (f h : nat -> R) (n : nat) :
  big_sum (fun k => f k + h k) n = big_sum f n + big_sum h n.
Proof. induction n as [|n IH]; simpl; [|rewrite IH]; lra. Qed.

Lemma big_sum_scal_l (c : R) (f : nat -> R) (n : nat) :
  big_sum (fun k => c * f k) n = c * big_sum f n.
Proof. induction n as [|n IH]; simpl; [|rewrite IH]; lra. Qed.

Lemma big_sum_scal_r (c : R) (f : nat -> R) (n : nat) :
  big_sum (fun k => f k * c) n = big_sum f n * c.
Proof. induction n as [|n IH]; simpl; [|rewrite IH]; lra. Qed.

Lemma big_sum_const (c : R) (n : nat) : big_sum (fun _ => c) n = INR n * c.
Proof.
  induction n as [|n IH]; [simpl; lra|].
  rewrite S_INR. simpl. rewrite IH. lra.
Qed.

Lemma big_sum_shift (f : nat -> R) (n : nat) :
  big_sum f (S n) = f O + big_sum (fun k => f (S k)) n.
Proof.
  induction n as [|n IH]; [simpl; lra|].
  change (big_sum f (S (S n))) with (big_sum f (S n) + f (S n)).
  rewrite IH. simpl. lra.
Qed.

Lemma big_sum_swap (f : nat -> nat -> R) (n m : nat) :
  big_sum (fun i => big_sum (fun j => f i j) m) n =
  big_sum (fun j => big_sum (fun i => f i j) n) m.
Proof.
  induction n as [|n IH]; simpl.
  - now rewrite big_sum_zero.
  - rewrite IH, <- big_sum_plus. reflexivity.
Qed.

Lemma big_sum_app (f : nat -> R) (n m : nat) :
  big_sum f (n + m) = big_sum f n + big_sum (fun k => f (n + k)%nat) m.
Proof.
  induction m as [|m IH].
  - rewrite Nat.add_0_r. simpl. lra.
  - rewrite Nat.add_succ_r. simpl. rewrite IH. lra.
Qed.

(** A sum over [n * m] flat indices is a double sum over quotient and
    remainder. *)
Lemma big_sum_flat (f : nat -> nat -> R) (n m : nat) :
  big_sum (fun j => f (j / m)%nat (j mod m)%nat) (n * m) =
  big_sum (fun k => big_sum (fun l => f k l) m) n.
Proof.
  induction n as [|n IH]; [reflexivity|].
  replace (S n * m)%nat with (n * m + m)%nat by lia.
  rewrite big_sum_app, IH. simpl. f_equal.
  apply big_sum_ext. intros l Hl.
  assert (Hm : m <> O) by lia.
  rewrite (Nat.add_comm (n * m) l).
  rewrite Nat.div_add by exact Hm.
  rewrite Nat.Div0.mod_add.
  rewrite Nat.div_small, Nat.mod_small by exact Hl.
  reflexivity.
Qed.

Lemma big_sum_mul (f h : nat -> R) (n m : nat) :
  big_sum (fun k => big_sum (fun l => f k * h l) m) n =
  big_sum f n * big_sum h m.
Proof.
  rewrite <- big_sum_scal_r. apply big_sum_ext. intros k _.
  now rewrite big_sum_scal_l.
Qed.

(* ================================================================== *)
(** ** Arrays: shapes and entries *)
(* ================================================================== *)

Lemma nth_map_seq {A : Type} (f : nat -> A) (m j : nat) (d : A) :
  (j < m)%nat -> nth j (map f (seq 0 m)) d = f j.
Proof.
  intros Hj.
  rewrite (nth_indep _ d (f O)) by (rewrite length_map, length_seq; exact Hj).
  rewrite (map_nth f (seq 0 m) O j), seq_nth by exact Hj.
  reflexivity.
Qed.

Lemma list_as_seq {A : Type} (l : list A) (d : A) :
  l = map (fun i => nth i l d) (seq 0 (length l)).
Proof.
  apply (nth_ext _ _ d d).
  - now rewrite length_map, length_seq.
  - intros i Hi. now rewrite nth_map_seq.
Qed.

Lemma map_over_rows {B : Type} (f : list R -> B) (A : ndarray) :
  map f (rows A) = map (fun i => f (nth i (rows A) [])) (seq 0 (nrows A)).
Proof.
  unfold nrows. rewrite (list_as_seq (rows A) []) at 1.
  now rewrite map_map.
Qed.

Lemma nrows_build (n m : nat) (f : nat -> nat -> R) : nrows (build n m f) = n.
Proof. unfold nrows, build. simpl. now rewrite length_map, length_seq. Qed.

Lemma ncols_build (n m : nat) (f : nat -> nat -> R) : ncols (build n m f) = m.
Proof. reflexivity. Qed.

Lemma wf_build (n m : nat) (f : nat -> nat -> R) : wf (build n m f).
Proof.
  unfold wf, build. simpl. apply List.Forall_forall. intros r Hr.
  apply in_map_iff in Hr. destruct Hr as [i [<- _]].
  now rewrite length_map, length_seq.
Qed.

Lemma cell_build (n m : nat) (f : nat -> nat -> R) (i j : nat) :
  (i < n)%nat -> (j < m)%nat -> cell (build n m f) i j = f i j.
Proof.
  intros Hi Hj. unfold cell, build. simpl.
  rewrite nth_map_seq by exact Hi. now rewrite nth_map_seq.
Qed.

Lemma build_ext (n m : nat) (f h : nat -> nat -> R) :
  (forall i j, (i < n)%nat -> (j < m)%nat -> f i j = h i j) ->
  build n m f = build n m h.
Proof.
  intros E. unfold build. f_equal.
  apply map_ext_in. intros i Hi. apply in_seq in Hi.
  apply map_ext_in. intros j Hj. apply in_seq in Hj.
  apply E; lia.
Qed.

Lemma row_length (A : ndarray) (i : nat) :
  wf A -> (i < nrows A)%nat -> length (nth i (rows A) []) = ncols A.
Proof.
  intros W Hi. unfold wf in W. rewrite List.Forall_forall in W.
  apply W. apply nth_In. exact Hi.
Qed.

Lemma build_cell (A : ndarray) : wf A -> build (nrows A) (ncols A) (cell A) = A.
Proof.
  intros W. destruct A as [c rs]. unfold build, nrows, cell. simpl. f_equal.
  etransitivity; [|symmetry; apply (list_as_seq rs [])].
  apply map_ext_in. intros i Hi. apply in_seq in Hi.
  pose proof (row_length (mk_ndarray c rs) i W) as L.
  unfold nrows in L. simpl in L. rewrite <- L by lia.
  symmetry. apply list_as_seq.
Qed.

Lemma map_entries_build (g : R -> R) (n m : nat) (f : nat -> nat -> R) :
  map_entries g (build n m f) = build n m (fun i j => g (f i j)).
Proof.
  unfold map_entries, build. simpl. f_equal.
  rewrite map_map. apply map_ext. intros i. now rewrite map_map.
Qed.

Lemma map_entries_as_build (g : R -> R) (A : ndarray) :
  wf A ->
  map_entries g A = build (nrows A) (ncols A) (fun i j => g (cell A i j)).
Proof.
  intros W. rewrite <- (build_cell A W) at 1.
  apply map_entries_build.
Qed.

Lemma wf_map_entries (g : R -> R) (A : ndarray) : wf A -> wf (map_entries g A).
Proof. intros W. rewrite map_entries_as_build by exact W. apply wf_build. Qed.

Lemma nrows_map_entries (g : R -> R) (A : ndarray) :
  nrows (map_entries g A) = nrows A.
Proof. unfold nrows, map_entries. simpl. apply length_map. Qed.

Lemma length_column (A : ndarray) (j : nat) : length (column A j) = nrows A.
Proof. unfold column, nrows. apply length_map. Qed.

Lemma nth_column (A : ndarray) (i j : nat) : nth i (column A j) 0 = cell A i j.
Proof.
  unfold column, cell.
  destruct (Nat.lt_ge_cases i (length (rows A))) as [Hi|Hi].
  - rewrite (nth_indep _ 0 (nth j [] 0)) by (rewrite length_map; exact Hi).
    apply (map_nth (fun r => nth j r 0)).
  - rewrite (nth_overflow (map _ _)) by (rewrite length_map; exact Hi).
    rewrite (nth_overflow (rows A)) by exact Hi.
    now destruct j.
Qed.

Lemma vdot_big_sum (a b : list R) :
  length a = length b ->
  vdot a b = big_sum (fun k => nth k a 0 * nth k b 0) (length a).
Proof.
  revert b. induction a as [|x a IH]; intros [|y b] E; simpl in E; try lia.
  - reflexivity.
  - change (length (x :: a)) with (S (length a)).
    rewrite big_sum_shift. simpl. rewrite IH by lia. reflexivity.
Qed.

Lemma jnp_sum_big_sum (v : list R) :
  jnp_sum v = big_sum (fun k => nth k v 0) (length v).
Proof.
  induction v as [|x v IH]; [reflexivity|].
  change (length (x :: v)) with (S (length v)).
  rewrite big_sum_shift. simpl. now rewrite <- IH.
Qed.

Lemma vadd_map {A : Type} (f h : A -> R) (l : list A) :
  vadd (map f l) (map h l) = map (fun x => f x + h x) l.
Proof. induction l as [|x l IH]; simpl; [|rewrite IH]; reflexivity. Qed.

Lemma map_ones {A : Type} (h : R -> R) (f : A -> R) (l : list A) :
  map h (jnp_ones_like (map f l)) = map (fun _ => h 1) l.
Proof.
  unfold jnp_ones_like, jnp_ones. rewrite length_map.
  induction l as [|x l IH]; simpl; [|rewrite IH]; reflexivity.
Qed.

(** [jnp.dot] of a rectangular matrix with a vector of matching length
    is the dense product. *)
Lemma jnp_dot_mv_dense (M : ndarray) (v : list R) :
  wf M -> ncols M = length v -> jnp_dot_mv M v = OK (dense_matvec M v).
Proof.
  intros W E. unfold jnp_dot_mv, dense_matvec.
  rewrite (proj2 (Nat.eqb_eq _ _) E). f_equal.
  rewrite map_over_rows. apply map_ext_in. intros i Hi. apply in_seq in Hi.
  rewrite vdot_big_sum by (rewrite row_length by (exact W || lia); exact E).
  rewrite row_length by (exact W || lia). reflexivity.
Qed.

Lemma jnp_dot_mv_shape (M : ndarray) (v : list R) :
  ncols M <> length v -> jnp_dot_mv M v = Raise shape_error.
Proof.
  intros E. unfold jnp_dot_mv.
  now rewrite (proj2 (Nat.eqb_neq _ _) E).
Qed.

Lemma nth_dense_matvec (M : ndarray) (v : list R) (i : nat) :
  (i < nrows M)%nat ->
  nth i (dense_matvec M v) 0 =
  big_sum (fun j => cell M i j * nth j v 0) (ncols M).
Proof. intros Hi. unfold dense_matvec. now rewrite nth_map_seq. Qed.

Lemma length_dense_matvec (M : ndarray) (v : list R) :
  length (dense_matvec M v) = nrows M.
Proof. unfold dense_matvec. now rewrite length_map, length_seq. Qed.

Lemma nrows_transpose (A : ndarray) : nrows (jnp_transpose A) = ncols A.
Proof. apply nrows_build. Qed.

Lemma ncols_transpose (A : ndarray) : ncols (jnp_transpose A) = nrows A.
Proof. reflexivity. Qed.

Lemma wf_transpose (A : ndarray) : wf (jnp_transpose A).
Proof. apply wf_build. Qed.

Lemma cell_transpose (A : ndarray) (k i : nat) :
  (k < ncols A)%nat -> (i < nrows A)%nat -> cell (jnp_transpose A) k i = cell A i k.
Proof. intros Hk Hi. unfold jnp_transpose. now rewrite cell_build. Qed.

(** Multiplying by a transposed matrix is the transposed dense product. *)
Lemma dense_matvec_transpose (C : ndarray) (v : list R) :
  dense_matvec (jnp_transpose C) v = dense_transpose_matvec C v.
Proof.
  unfold dense_matvec, dense_transpose_matvec.
  rewrite nrows_transpose, ncols_transpose.
  apply map_ext_in. intros j Hj. apply in_seq in Hj.
  apply big_sum_ext. intros i Hi.
  rewrite cell_transpose by lia. reflexivity.
Qed.

(* ================================================================== *)
(** ** Products of factors *)
(* ================================================================== *)

Lemma bind_OK {A B : Type} (a : A) (k : A -> result B) : bind (OK a) k = k a.
Proof. reflexivity. Qed.

Lemma bind_Raise {A B : Type} (e : exn) (k : A -> result B) :
  bind (Raise e) k = Raise e.
Proof. reflexivity. Qed.

Lemma eqb_refl_nat (n m : nat) : n = m -> (n =? m)%nat = true.
Proof. intros ->. apply Nat.eqb_refl. Qed.

(** [A . B^T] has the inner products of the rows of [A] and [B] as entries. *)
Lemma matmul_transpose (A B : ndarray) :
  wf A -> wf B -> ncols A = ncols B ->
  jnp_matmul A (jnp_transpose B) =
  OK (build (nrows A) (nrows B)
        (fun i j => big_sum (fun k => cell A i k * cell B j k) (ncols A))).
Proof.
  intros WA WB E. unfold jnp_matmul.
  rewrite nrows_transpose, (eqb_refl_nat _ _ E), ncols_transpose.
  f_equal. apply build_ext. intros i j Hi Hj.
  assert (L : length (nth i (rows A) []) = ncols A) by now apply row_length.
  rewrite vdot_big_sum by (rewrite L, length_column, nrows_transpose; exact E).
  rewrite L. apply big_sum_ext. intros k Hk.
  rewrite nth_column, cell_transpose by lia. reflexivity.
Qed.

Lemma cell_map_entries (f : R -> R) (A : ndarray) (i j : nat) :
  wf A -> (i < nrows A)%nat -> (j < ncols A)%nat ->
  cell (map_entries f A) i j = f (cell A i j).
Proof.
  intros W Hi Hj. rewrite map_entries_as_build by exact W.
  now rewrite cell_build.
Qed.

(** The kernel of the fast path: two matrix-vector products and the
    broadcast bias term amount to the dense product with
    [c1 . c2^T + b]. *)
Lemma fast_kernel (c1 c2 : ndarray) (b : R) (vec : list R) :
  wf c1 -> wf c2 -> ncols c1 = ncols c2 -> length vec = nrows c2 ->
  (do inner <- jnp_dot_mv (jnp_transpose c2) vec;
   do out <- jnp_dot_mv c1 inner;
   OK (vadd out (map (fun one => b * jnp_sum vec * one) (jnp_ones_like out))))
  = OK (map (fun i =>
              big_sum (fun j =>
                 (big_sum (fun k => cell c1 i k * cell c2 j k) (ncols c1) + b)
                 * nth j vec 0) (length vec))
            (seq 0 (nrows c1))).
Proof.
  intros W1 W2 E L.
  rewrite jnp_dot_mv_dense
    by (apply wf_transpose || (rewrite ncols_transpose; lia)).
  rewrite bind_OK.
  rewrite jnp_dot_mv_dense
    by (exact W1 || (rewrite length_dense_matvec, nrows_transpose; exact E)).
  rewrite bind_OK. f_equal.
  unfold dense_matvec at 1 3.
  rewrite (map_ones (fun one => b * jnp_sum vec * one)), vadd_map.
  apply map_ext_in. intros i Hi. apply in_seq in Hi.
  rewrite (big_sum_ext _
    (fun k => big_sum (fun j => cell c1 i k * cell c2 j k * nth j vec 0)
                      (length vec))).
  2:{ intros k Hk. rewrite nth_dense_matvec by (rewrite nrows_transpose; lia).
      rewrite ncols_transpose, <- L, <- big_sum_scal_l.
      apply big_sum_ext. intros j Hj. rewrite cell_transpose by lia. ring. }
  rewrite big_sum_swap.
  rewrite (big_sum_ext
    (fun j => (big_sum (fun k => cell c1 i k * cell c2 j k) (ncols c1) + b)
              * nth j vec 0)
    (fun j => big_sum (fun k => cell c1 i k * cell c2 j k * nth j vec 0)
                      (ncols c1) + b * nth j vec 0)).
  2:{ intros j Hj. rewrite big_sum_scal_r. ring. }
  rewrite big_sum_plus, big_sum_scal_l, jnp_sum_big_sum. ring.
Qed.

(* ================================================================== *)
(** ** The scaled factors and the cost matrix *)
(* ================================================================== *)

Lemma cost_1_ok (g : LRCGeometry) (s : R) :
  scale_cost g = OK s -> cost_1 g = OK (mul_scalar (_cost_1 g) (sqrt s)).
Proof. intros H. unfold cost_1. now rewrite H. Qed.

Lemma cost_2_ok (g : LRCGeometry) (s : R) :
  scale_cost g = OK s -> cost_2 g = OK (mul_scalar (_cost_2 g) (sqrt s)).
Proof. intros H. unfold cost_2. now rewrite H. Qed.

Lemma bias_ok (g : LRCGeometry) (s : R) :
  scale_cost g = OK s -> bias g = OK (_bias g * s).
Proof. intros H. unfold bias. now rewrite H. Qed.

(** A failing scale resolution fails every derived quantity alike. *)
Lemma scale_raise_derived (g : LRCGeometry) (e : exn) :
  scale_cost g = Raise e ->
  cost_1 g = Raise e /\ cost_2 g = Raise e /\ bias g = Raise e /\
  cost_matrix g = Raise e.
Proof.
  intros H. unfold cost_matrix, cost_1, cost_2, bias. rewrite H.
  repeat split; reflexivity.
Qed.

Lemma wf_mul_scalar (A : ndarray) (c : R) : wf A -> wf (mul_scalar A c).
Proof. apply wf_map_entries. Qed.

Lemma cell_mul_scalar (A : ndarray) (c : R) (i j : nat) :
  wf A -> (i < nrows A)%nat -> (j < ncols A)%nat ->
  cell (mul_scalar A c) i j = cell A i j * c.
Proof. intros. unfold mul_scalar. now rewrite cell_map_entries. Qed.

Lemma cost_matrix_ok (g : LRCGeometry) (s : R) :
  constructed g -> scale_cost g = OK s ->
  cost_matrix g =
  OK (build (fst (shape g)) (snd (shape g))
        (fun i j =>
           product_entry (mul_scalar (_cost_1 g) (sqrt s))
                         (mul_scalar (_cost_2 g) (sqrt s)) i j
           + _bias g * s)).
Proof.
  intros (W1 & W2 & E & _) H. unfold cost_matrix.
  rewrite (cost_1_ok g s H), (cost_2_ok g s H), (bias_ok g s H), !bind_OK.
  rewrite matmul_transpose by (try apply wf_mul_scalar; assumption).
  rewrite !bind_OK. unfold add_scalar. rewrite map_entries_build.
  unfold mul_scalar at 1 2. rewrite !nrows_map_entries. reflexivity.
Qed.

Lemma nrows_mul_scalar (A : ndarray) (c : R) : nrows (mul_scalar A c) = nrows A.
Proof. apply nrows_map_entries. Qed.

Lemma axis_cases (axis : Z) :
  (axis = 0 \/ axis = 1)%Z ->
  ((axis =? 0)%Z = true /\ (axis =? 1)%Z = false) \/
  ((axis =? 0)%Z = false /\ (axis =? 1)%Z = true).
Proof. intros [-> | ->]; [left | right]; split; reflexivity. Qed.

(* ================================================================== *)
(** ** Vector application *)
(* ================================================================== *)

(** The fast path agrees with the dense product, failures included. *)
Lemma efficient_apply_dense (g : LRCGeometry) (vec : list R) (axis : Z) :
  constructed g -> (axis = 0 \/ axis = 1)%Z ->
  length vec = axis_length g axis ->
  efficient_apply g vec axis None =
  do C <- cost_matrix g; OK (dense_apply C axis vec).
Proof.
  intros Hg Hax L. pose proof Hg as (W1 & W2 & E & _).
  unfold axis_length, dense_apply in *.
  destruct (scale_cost g) as [s|e] eqn:H.
  - rewrite (cost_matrix_ok g s Hg H), bind_OK.
    unfold efficient_apply.
    rewrite (cost_1_ok g s H), (cost_2_ok g s H), (bias_ok g s H).
    destruct (axis_cases axis Hax) as [[A0 A1] | [A0 A1]];
      rewrite A0 in L; rewrite A0, A1, !bind_OK; cbv zeta; simpl in L.
    + rewrite fast_kernel;
        [| now apply wf_mul_scalar | now apply wf_mul_scalar
         | simpl; congruence | rewrite nrows_mul_scalar; exact L].
      f_equal. unfold dense_transpose_matvec.
      rewrite nrows_build, ncols_build, nrows_mul_scalar, L.
      apply map_ext_in. intros j Hj. apply in_seq in Hj.
      apply big_sum_ext. intros i Hi.
      rewrite cell_build by lia.
      unfold product_entry. simpl. rewrite <- E. f_equal. f_equal.
      apply big_sum_ext. intros k _. ring.
    + rewrite fast_kernel;
        [| now apply wf_mul_scalar | now apply wf_mul_scalar
         | simpl; congruence | rewrite nrows_mul_scalar; exact L].
      f_equal. unfold dense_matvec.
      rewrite nrows_build, ncols_build, nrows_mul_scalar, L.
      apply map_ext_in. intros i Hi. apply in_seq in Hi.
      apply big_sum_ext. intros j Hj.
      rewrite cell_build by lia. reflexivity.
  - destruct (scale_raise_derived g e H) as (H1 & H2 & H3 & H4).
    unfold efficient_apply. rewrite H1, H2, H4.
    now destruct (axis =? 1)%Z.
Qed.

(** So does the dense implementation of the base class. *)
Lemma base_apply_dense (g : LRCGeometry) (vec : list R) (axis : Z) :
  constructed g -> (axis = 0 \/ axis = 1)%Z ->
  length vec = axis_length g axis ->
  Geometry_apply_cost_to_vec g vec axis None =
  do C <- cost_matrix g; OK (dense_apply C axis vec).
Proof.
  intros Hg Hax L. unfold Geometry_apply_cost_to_vec, axis_length, dense_apply in *.
  destruct (scale_cost g) as [s|e] eqn:H.
  - rewrite (cost_matrix_ok g s Hg H), !bind_OK.
    destruct (axis_cases axis Hax) as [[A0 _] | [A0 _]];
      rewrite A0 in L; rewrite A0; simpl in L.
    + rewrite jnp_dot_mv_dense
        by (apply wf_transpose || (rewrite ncols_transpose, nrows_build; now symmetry)).
      now rewrite dense_matvec_transpose.
    + rewrite jnp_dot_mv_dense
        by (apply wf_build || (rewrite ncols_build; now symmetry)).
      reflexivity.
  - destruct (scale_raise_derived g e H) as (_ & _ & _ & H4).
    now rewrite H4.
Qed.

(** [_apply_cost_to_vec] without [fn] is the dense product with the
    cost matrix. *)
Lemma apply_cost_to_vec_dense (is_linear : (R -> R) -> bool)
    (g : LRCGeometry) (vec : list R) (axis : Z) :
  constructed g -> (axis = 0 \/ axis = 1)%Z ->
  length vec = axis_length g axis ->
  _apply_cost_to_vec is_linear g vec axis None =
  do C <- cost_matrix g; OK (dense_apply C axis vec).
Proof.
  intros Hg Hax L. unfold _apply_cost_to_vec.
  rewrite efficient_apply_dense, base_apply_dense by assumption.
  now destruct (cost_matrix g).
Qed.

Lemma vadd_broadcast (h : R -> R) (l : list R) :
  vadd l (map h (jnp_ones_like l)) = map (fun o => o + h 1) l.
Proof.
  unfold jnp_ones_like, jnp_ones.
  induction l as [|x l IH]; simpl; [|rewrite IH]; reflexivity.
Qed.

(** The shape of the fast path: [c1 . (c2^T . vec)] plus the broadcast
    bias term. *)
Lemma fast_kernel_form (c1 c2 : ndarray) (b : R) (vec : list R) :
  wf c1 -> ncols c1 = ncols c2 -> length vec = nrows c2 ->
  (do inner <- jnp_dot_mv (jnp_transpose c2) vec;
   do out <- jnp_dot_mv c1 inner;
   OK (vadd out (map (fun one => b * jnp_sum vec * one) (jnp_ones_like out))))
  = OK (map (fun o => o + b * jnp_sum vec)
            (dense_matvec c1 (dense_transpose_matvec c2 vec))).
Proof.
  intros W1 E L.
  rewrite jnp_dot_mv_dense
    by (apply wf_transpose || (rewrite ncols_transpose; lia)).
  rewrite bind_OK.
  rewrite jnp_dot_mv_dense
    by (exact W1 || (rewrite length_dense_matvec, nrows_transpose; exact E)).
  rewrite bind_OK, dense_matvec_transpose. f_equal.
  rewrite (vadd_broadcast (fun one => b * jnp_sum vec * one)).
  apply map_ext. intros o. ring.
Qed.

(* ================================================================== *)
(** ** C1: vector application equals the dense product *)
(* ================================================================== *)

(** C1.  For a constructed geometry and a vector of the length selected
    by [axis], [_apply_cost_to_vec] without [fn] equals the dense product
    of the cost matrix (transposed for [axis = 0]) with the vector, where
    the cost matrix is the product of the scaled factors plus the scaled
    bias; the value is the one of the fast path, [c1 . (c2^T . vec)] plus
    [bias * sum(vec)] on every output entry, with [(c1, c2)] the scaled
    factors in the order [axis] selects.  The equation includes the case
    of a failing scale resolution, where both sides raise the same
    exception. *)
Theorem apply_cost_to_vec_is_dense_product (is_linear : (R -> R) -> bool)
    (g : LRCGeometry) (vec : list R) (axis : Z) :
  constructed g -> (axis = 0 \/ axis = 1)%Z ->
  length vec = axis_length g axis ->
  _apply_cost_to_vec is_linear g vec axis None =
    (do C <- cost_matrix g; OK (dense_apply C axis vec))
  /\
  forall s, scale_cost g = OK s ->
    let f1 := mul_scalar (_cost_1 g) (sqrt s) in
    let f2 := mul_scalar (_cost_2 g) (sqrt s) in
    let C := build (fst (shape g)) (snd (shape g))
               (fun i j => product_entry f1 f2 i j + _bias g * s) in
    let c1 := if (axis =? 1)%Z then f1 else f2 in
    let c2 := if (axis =? 1)%Z then f2 else f1 in
    cost_matrix g = OK C /\
    _apply_cost_to_vec is_linear g vec axis None = OK (dense_apply C axis vec) /\
    _apply_cost_to_vec is_linear g vec axis None =
      OK (map (fun o => o + _bias g * s * jnp_sum vec)
              (dense_matvec c1 (dense_transpose_matvec c2 vec))).
Proof.
  intros Hg Hax L. split; [now apply apply_cost_to_vec_dense|].
  intros s H f1 f2 C c1 c2.
  pose proof (cost_matrix_ok g s Hg H) as HC. fold f1 f2 C in HC.
  pose proof (apply_cost_to_vec_dense is_linear g vec axis Hg Hax L) as HD.
  rewrite HC, bind_OK in HD.
  split; [exact HC|]. split; [exact HD|].
  pose proof (efficient_apply_dense g vec axis Hg Hax L) as HE.
  pose proof (base_apply_dense g vec axis Hg Hax L) as HB.
  rewrite HC, bind_OK in HE, HB.
  unfold _apply_cost_to_vec. rewrite HB.
  transitivity (efficient_apply g vec axis None);
    [rewrite HE; reflexivity|].
  destruct Hg as (W1 & W2 & E & _).
  unfold efficient_apply, axis_length in *.
  rewrite (cost_1_ok g s H), (cost_2_ok g s H), (bias_ok g s H).
  subst c1 c2 f1 f2.
  destruct (axis_cases axis Hax) as [[A0 A1] | [A0 A1]];
    rewrite A0 in L; rewrite A1, !bind_OK; cbv zeta; simpl in L;
    apply fast_kernel_form;
    (now apply wf_mul_scalar) || (simpl; congruence)
    || (rewrite nrows_mul_scalar; exact L).
Qed.

Example cost_matrix_geom_a :
  cost_matrix geom_a = OK (mk_ndarray 2 [[12; 18]]).
Proof. evaluate. Qed.

Example apply_cost_to_vec_geom_a :
  _apply_cost_to_vec (fun _ => false) geom_a [1; 1] 1 None = OK [30].
Proof. evaluate. Qed.

Lemma constructed_geom_a : constructed geom_a.
Proof.
  unfold constructed, wf, geom_a. simpl.
  repeat split; repeat constructor.
Qed.

Lemma apply_cost_to_vec_is_dense_product_witness :
  _apply_cost_to_vec (fun _ => false) geom_a [1; 1] 1 None =
  (do C <- cost_matrix geom_a; OK (dense_apply C 1 [1; 1])).
Proof.
  apply (apply_cost_to_vec_is_dense_product (fun _ => false) geom_a [1; 1] 1).
  - exact constructed_geom_a.
  - right. reflexivity.
  - reflexivity.
Defined.

(* ================================================================== *)
(** ** C2: the element-wise square of the cost *)
(* ================================================================== *)

(** The reshaped outer-product expansion of a factor with [r] columns:
    column [k * r + l] holds the product of columns [k] and [l]. *)
Lemma flat_index (i j r : nat) :
  (j < r * r)%nat ->
  ((i * r ^ 2 + j) / (r * r) = i /\
   ((i * r ^ 2 + j) / r) mod r = j / r /\
   (i * r ^ 2 + j) mod r = j mod r)%nat.
Proof.
  intros Hj. rewrite Nat.pow_2_r.
  assert (Hr : r <> O) by (intros ->; lia).
  assert (Hq : (j / r < r)%nat) by (apply Nat.Div0.div_lt_upper_bound; lia).
  repeat split.
  - rewrite Nat.div_add_l by lia. rewrite Nat.div_small by exact Hj. lia.
  - replace (i * (r * r) + j)%nat with (j + (i * r) * r)%nat by lia.
    rewrite Nat.div_add by exact Hr.
    rewrite Nat.Div0.mod_add. now apply Nat.mod_small.
  - replace (i * (r * r) + j)%nat with (j + (i * r) * r)%nat by lia.
    apply Nat.Div0.mod_add.
Qed.

Lemma reshape_outer (f : ndarray) (n r : nat) :
  nrows f = n -> ncols f = r ->
  jnp_reshape (outer_rows f) n (r ^ 2) = OK (expansion f).
Proof.
  intros <- <-.
  unfold jnp_reshape, outer_rows, expansion. cbn [dim0 dim1 dim2 at3].
  rewrite (eqb_refl_nat _ (nrows f * ncols f ^ 2))
    by (rewrite Nat.pow_2_r; lia).
  f_equal. apply build_ext. intros i j Hi Hj. cbv zeta.
  rewrite Nat.pow_2_r in Hj.
  destruct (flat_index i j (ncols f) Hj) as (-> & -> & ->).
  reflexivity.
Qed.

Lemma square_entries_build (n m : nat) (F : nat -> nat -> R) :
  square_entries (build n m F) = build n m (fun i j => F i j * F i j).
Proof.
  unfold square_entries. rewrite nrows_build, ncols_build.
  apply build_ext. intros i j Hi Hj. now rewrite cell_build.
Qed.

(** The squared inner product is the inner product of the expansions. *)
Lemma product_entry_outer (f1 f2 : ndarray) (i j : nat) :
  ncols f1 = ncols f2 ->
  big_sum (fun q =>
     (cell f1 i (q / ncols f1) * cell f1 i (q mod ncols f1)) *
     (cell f2 j (q / ncols f1) * cell f2 j (q mod ncols f1)))
    (ncols f1 * ncols f1)
  = product_entry f1 f2 i j * product_entry f1 f2 i j.
Proof.
  intros E. unfold product_entry.
  rewrite (big_sum_flat
    (fun k l => cell f1 i k * cell f1 i l * (cell f2 j k * cell f2 j l))).
  rewrite <- (big_sum_mul (fun k => cell f1 i k * cell f2 j k)
                          (fun l => cell f1 i l * cell f2 j l)).
  apply big_sum_ext. intros k _. apply big_sum_ext. intros l _. ring.
Qed.

Lemma scale_cost_none (g : LRCGeometry) :
  _scale_cost g = PyNone -> scale_cost g = OK 1.
Proof. intros H. unfold scale_cost. now rewrite H. Qed.

(** The cost matrix of the augmented geometry built from the expansions
    of two factors is the element-wise square of their product. *)
Lemma augmented_cost_matrix (f1 f2 : ndarray) :
  wf f1 -> wf f2 -> ncols f1 = ncols f2 ->
  let e1 := build (nrows f1) (ncols f1 ^ 2)
              (fun i j => cell f1 i (j / ncols f1) * cell f1 i (j mod ncols f1)) in
  let e2 := build (nrows f2) (ncols f1 ^ 2)
              (fun i j => cell f2 i (j / ncols f1) * cell f2 i (j mod ncols f1)) in
  let g2 := {| _cost_1 := e1; _cost_2 := e2; _bias := 0;
               _kwargs := ∅; _scale_cost := PyNone |} in
  constructed g2 /\
  cost_matrix g2 =
  OK (build (nrows f1) (nrows f2)
        (fun i j => product_entry f1 f2 i j * product_entry f1 f2 i j)).
Proof.
  intros W1 W2 E e1 e2 g2.
  assert (Hg : constructed g2).
  { unfold constructed, g2, e1, e2. simpl.
    repeat split; apply wf_build. }
  split; [exact Hg|].
  rewrite (cost_matrix_ok g2 1 Hg (scale_cost_none g2 eq_refl)).
  assert (N1 : fst (shape g2) = nrows f1) by apply nrows_build.
  assert (N2 : snd (shape g2) = nrows f2) by apply nrows_build.
  rewrite N1, N2. f_equal. apply build_ext. intros i j Hi Hj.
  rewrite <- (product_entry_outer f1 f2 i j E).
  unfold product_entry at 1.
  change (_bias g2) with 0. change (_cost_1 g2) with e1.
  change (_cost_2 g2) with e2.
  change (ncols (mul_scalar e1 (sqrt 1))) with (ncols f1 ^ 2)%nat.
  rewrite sqrt_1, Nat.pow_2_r, Rmult_0_l, Rplus_0_r.
  apply big_sum_ext. intros q Hq.
  assert (Hq' : (q < ncols f1 ^ 2)%nat) by (rewrite Nat.pow_2_r; exact Hq).
  rewrite !cell_mul_scalar
    by (apply wf_build || (unfold e1, e2; rewrite nrows_build; lia)
        || exact Hq').
  unfold e1, e2. rewrite !cell_build by assumption.
  ring.
Qed.

(** The keyword dictionary plays no part in vector application. *)
Lemma apply_cost_ignores_kwargs (is_linear : (R -> R) -> bool)
    (c1 c2 : ndarray) (b : R) (kw kw' : gmap string pyobj) (sc : pyobj)
    (vec : list R) (axis : Z) (fn : option (R -> R)) :
  _apply_cost_to_vec is_linear
    {| _cost_1 := c1; _cost_2 := c2; _bias := b; _kwargs := kw;
       _scale_cost := sc |} vec axis fn =
  _apply_cost_to_vec is_linear
    {| _cost_1 := c1; _cost_2 := c2; _bias := b; _kwargs := kw';
       _scale_cost := sc |} vec axis fn.
Proof. reflexivity. Qed.

Lemma augmented_geometry_cost (f1 f2 : ndarray) :
  wf f1 -> wf f2 -> ncols f1 = ncols f2 ->
  let bare := {| _cost_1 := expansion f1; _cost_2 := expansion f2;
                 _bias := 0; _kwargs := ∅; _scale_cost := PyNone |} in
  constructed bare /\
  cost_matrix bare =
  OK (build (nrows f1) (nrows f2)
        (fun i j => product_entry f1 f2 i j * product_entry f1 f2 i j)).
Proof.
  intros W1 W2 E. unfold expansion. rewrite <- E.
  now apply augmented_cost_matrix.
Qed.

Lemma init_augmented (f1 f2 : ndarray) :
  ncols f1 = ncols f2 ->
  LRCGeometry_init (expansion f1) (expansion f2) 0 PyNone ∅ =
  OK (augmented_geometry f1 f2).
Proof.
  intros E. unfold LRCGeometry_init.
  change (no_param_clash ∅) with true. cbn [negb].
  unfold expansion at 1 2. rewrite !ncols_build, E, Nat.eqb_refl.
  reflexivity.
Qed.

(** The dense fallback of the base class computes the product with the
    element-wise square. *)
Lemma direct_square (g : LRCGeometry) (vec : list R) (axis : Z) :
  constructed g -> (axis = 0 \/ axis = 1)%Z ->
  length vec = axis_length g axis ->
  Geometry_apply_square_cost g vec axis =
  do C <- cost_matrix g; OK (dense_apply (square_entries C) axis vec).
Proof.
  intros Hg Hax L.
  unfold Geometry_apply_square_cost, axis_length, dense_apply in *.
  destruct (scale_cost g) as [s|e] eqn:H.
  - rewrite (cost_matrix_ok g s Hg H), !bind_OK.
    set (F := fun i j : nat => _ + _).
    rewrite square_entries_build.
    destruct (axis_cases axis Hax) as [[A0 _] | [A0 _]];
      rewrite A0 in L; rewrite A0; simpl in L.
    + rewrite <- dense_matvec_transpose. unfold jnp_transpose.
      rewrite !nrows_build, !ncols_build, map_entries_build.
      rewrite jnp_dot_mv_dense
        by (apply wf_build || (rewrite ncols_build; now symmetry)).
      f_equal. f_equal. apply build_ext. intros k i Hk Hi.
      rewrite !cell_build by assumption. ring.
    + rewrite map_entries_build.
      rewrite jnp_dot_mv_dense
        by (apply wf_build || (rewrite ncols_build; now symmetry)).
      f_equal. f_equal. apply build_ext. intros i j Hi Hj. ring.
  - destruct (scale_raise_derived g e H) as (_ & _ & _ & H4).
    now rewrite H4.
Qed.

(** Applying the augmented geometry computes the same product when the
    bias is zero. *)
Lemma factored_square (is_linear : (R -> R) -> bool)
    (g : LRCGeometry) (vec : list R) (axis : Z) (s : R) :
  constructed g -> _bias g = 0 -> (axis = 0 \/ axis = 1)%Z ->
  length vec = axis_length g axis -> scale_cost g = OK s ->
  Geometry_apply_cost is_linear
    (augmented_geometry (mul_scalar (_cost_1 g) (sqrt s))
                        (mul_scalar (_cost_2 g) (sqrt s))) vec axis =
  do C <- cost_matrix g; OK (dense_apply (square_entries C) axis vec).
Proof.
  intros Hg Hb Hax L H. pose proof Hg as (W1 & W2 & E & _).
  set (f1 := mul_scalar (_cost_1 g) (sqrt s)).
  set (f2 := mul_scalar (_cost_2 g) (sqrt s)).
  destruct (augmented_geometry_cost f1 f2) as [Hg2 HC2];
    [now apply wf_mul_scalar | now apply wf_mul_scalar | exact E |].
  unfold Geometry_apply_cost, augmented_geometry.
  rewrite (apply_cost_ignores_kwargs _ _ _ _ (Geometry_init ∅) ∅).
  rewrite apply_cost_to_vec_dense; [| exact Hg2 | exact Hax |].
  2:{ rewrite L. unfold axis_length, shape, expansion.
      simpl. rewrite !nrows_build. unfold f1, f2.
      now rewrite !nrows_mul_scalar. }
  rewrite HC2, (cost_matrix_ok g s Hg H), !bind_OK, square_entries_build.
  fold f1 f2. unfold f1 at 1, f2 at 1. rewrite !nrows_mul_scalar.
  f_equal. f_equal. apply build_ext. intros i j _ _.
  rewrite Hb. ring.
Qed.

(** C2.  For a constructed geometry with zero bias and a vector of the
    length selected by [axis], [apply_square_cost] equals the product of
    the element-wise square of the cost matrix with the vector, whichever
    strategy is taken.  The strategy is decided at each call from the
    shape and the rank: for [n * m < (n + m) * r ^ 2] the call is the
    dense fallback of the base class; otherwise it is the vector
    application of the augmented geometry of rank [r ^ 2] whose factors
    are the outer-product expansions of the scaled factors. *)
Theorem apply_square_cost_is_dense_square (is_linear : (R -> R) -> bool)
    (g : LRCGeometry) (vec : list R) (axis : Z) :
  constructed g -> _bias g = 0 -> (axis = 0 \/ axis = 1)%Z ->
  length vec = axis_length g axis ->
  let n := fst (shape g) in
  let m := snd (shape g) in
  let r := cost_rank g in
  apply_square_cost is_linear g vec axis =
    (do C <- cost_matrix g; OK (dense_apply (square_entries C) axis vec))
  /\
  ((n * m < (n + m) * r ^ 2)%nat ->
     apply_square_cost is_linear g vec axis =
     Geometry_apply_square_cost g vec axis)
  /\
  (~ (n * m < (n + m) * r ^ 2)%nat ->
     forall s, scale_cost g = OK s ->
       let g2 := augmented_geometry (mul_scalar (_cost_1 g) (sqrt s))
                                    (mul_scalar (_cost_2 g) (sqrt s)) in
       cost_rank g2 = (r ^ 2)%nat /\
       apply_square_cost is_linear g vec axis =
       Geometry_apply_cost is_linear g2 vec axis)
  /\
  (forall s, scale_cost g = OK s ->
     exists C, cost_matrix g = OK C /\
       apply_square_cost is_linear g vec axis =
       OK (dense_apply (square_entries C) axis vec)).
Proof.
  intros Hg Hb Hax L n m r. pose proof Hg as (W1 & W2 & E & _).
  assert (Direct : (n * m < (n + m) * r ^ 2)%nat ->
            apply_square_cost is_linear g vec axis =
            Geometry_apply_square_cost g vec axis).
  { intros Hlt. unfold apply_square_cost. fold n m r.
    unfold shape. cbn [fst snd]. unfold shape in n, m. cbn [fst snd] in n, m.
    fold n m. fold r.
    now rewrite (proj2 (Nat.ltb_lt _ _) Hlt). }
  assert (Factored : ~ (n * m < (n + m) * r ^ 2)%nat ->
            forall s, scale_cost g = OK s ->
            apply_square_cost is_linear g vec axis =
            Geometry_apply_cost is_linear
              (augmented_geometry (mul_scalar (_cost_1 g) (sqrt s))
                                  (mul_scalar (_cost_2 g) (sqrt s))) vec axis).
  { intros Hge s H. unfold apply_square_cost.
    unfold shape. cbn [fst snd]. unfold shape in n, m. cbn [fst snd] in n, m.
    fold n m. fold r.
    rewrite (proj2 (Nat.ltb_nlt _ _) Hge).
    rewrite (cost_1_ok g s H), (cost_2_ok g s H), !bind_OK.
    rewrite (reshape_outer _ n r)
      by (apply nrows_mul_scalar || reflexivity).
    rewrite (reshape_outer _ m r)
      by (apply nrows_mul_scalar || (simpl; now symmetry)).
    rewrite !bind_OK, init_augmented by (simpl; exact E).
    reflexivity. }
  assert (Raised : forall e, scale_cost g = Raise e ->
            apply_square_cost is_linear g vec axis = Raise e).
  { intros e H. destruct (scale_raise_derived g e H) as (H1 & _ & _ & H4).
    destruct (Nat.ltb_spec (n * m) ((n + m) * r ^ 2)) as [Hlt|Hge].
    - rewrite (Direct Hlt). unfold Geometry_apply_square_cost. now rewrite H4.
    - unfold apply_square_cost.
      unfold shape. cbn [fst snd]. unfold shape in n, m. cbn [fst snd] in n, m.
      fold n m. fold r.
      rewrite (proj2 (Nat.ltb_nlt _ _) (proj2 (Nat.nlt_ge _ _) Hge)).
      now rewrite H1. }
  assert (Main : apply_square_cost is_linear g vec axis =
            (do C <- cost_matrix g;
             OK (dense_apply (square_entries C) axis vec))).
  { destruct (scale_cost g) as [s|e] eqn:H.
    - destruct (Nat.ltb_spec (n * m) ((n + m) * r ^ 2)) as [Hlt|Hge].
      + rewrite (Direct Hlt). now apply direct_square.
      + rewrite (Factored (proj2 (Nat.nlt_ge _ _) Hge) s eq_refl).
        now apply factored_square.
    - rewrite (Raised e eq_refl).
      destruct (scale_raise_derived g e H) as (_ & _ & _ & H4).
      now rewrite H4. }
  split; [exact Main|]. split; [exact Direct|]. split.
  - intros Hge s H g2. split; [|now apply Factored].
    reflexivity.
  - intros s H. rewrite Main, (cost_matrix_ok g s Hg H), bind_OK.
    eexists. split; reflexivity.
Qed.

Lemma constructed_geom_b : constructed geom_b.
Proof.
  unfold constructed, wf, geom_b. simpl.
  repeat split; repeat constructor.
Qed.

Lemma constructed_geom_c : constructed geom_c.
Proof.
  unfold constructed, wf, geom_c. simpl.
  repeat split; repeat constructor.
Qed.

(* ================================================================== *)
(** ** C3: merging two geometries *)
(* ================================================================== *)

Lemma nth_zip_app (ra rb : list (list R)) (i : nat) :
  (i < length ra)%nat -> (i < length rb)%nat ->
  nth i (zip_with app ra rb) [] = nth i ra [] ++ nth i rb [].
Proof.
  revert rb i. induction ra as [|a ra IH]; intros [|b rb] [|i] Ha Hb;
    simpl in *; try lia; [reflexivity|].
  apply IH; lia.
Qed.

Lemma wf_hconcat (A B : ndarray) : wf A -> wf B -> wf (hconcat A B).
Proof.
  unfold wf, hconcat. simpl. generalize (ncols A) (ncols B). intros ca cb.
  generalize (rows B). induction (rows A) as [|a ra IH];
    intros [|b rb] WA WB; simpl; constructor.
  - rewrite length_app. inversion WA; inversion WB; subst. lia.
  - apply IH; [now inversion WA | now inversion WB].
Qed.

Lemma concatenate_ok (A B : ndarray) :
  nrows A = nrows B ->
  jnp_concatenate1 A B =
  OK (build (nrows A) (ncols A + ncols B)
        (fun i j => if (j <? ncols A)%nat then cell A i j
                    else cell B i (j - ncols A))).
Proof. intros E. unfold jnp_concatenate1. now rewrite E, Nat.eqb_refl. Qed.

(** On rectangular arrays with as many rows, [jnp.concatenate] along the
    second axis is the column-wise concatenation. *)
Lemma concatenate_hconcat (A B : ndarray) :
  wf A -> wf B -> nrows A = nrows B ->
  jnp_concatenate1 A B = OK (hconcat A B).
Proof.
  intros WA WB E. rewrite concatenate_ok by exact E. f_equal.
  rewrite <- (build_cell (hconcat A B)) by now apply wf_hconcat.
  assert (N : nrows (hconcat A B) = nrows A).
  { unfold nrows, hconcat. simpl. rewrite length_zip_with.
    unfold nrows in E. lia. }
  rewrite N. apply build_ext. intros i j Hi Hj.
  unfold cell, hconcat. simpl.
  rewrite nth_zip_app by (unfold nrows in *; lia).
  pose proof (row_length A i WA Hi) as LA.
  destruct (Nat.ltb_spec j (ncols A)) as [Hlt|Hge].
  - now rewrite app_nth1 by lia.
  - rewrite app_nth2 by lia. now rewrite LA.
Qed.

Lemma concatenate_shape (A B : ndarray) :
  nrows A <> nrows B -> jnp_concatenate1 A B = Raise shape_error.
Proof.
  intros E. unfold jnp_concatenate1.
  now rewrite (proj2 (Nat.eqb_neq _ _) E).
Qed.

(** The product of two concatenated factors is the sum of the products. *)
Lemma product_entry_concat (A1 A2 B1 B2 : ndarray) (n m i j : nat) :
  ncols A1 = ncols B1 -> ncols A2 = ncols B2 ->
  (i < n)%nat -> (j < m)%nat ->
  let c1 := build n (ncols A1 + ncols A2)
              (fun i j => if (j <? ncols A1)%nat then cell A1 i j
                          else cell A2 i (j - ncols A1)) in
  let c2 := build m (ncols B1 + ncols B2)
              (fun i j => if (j <? ncols B1)%nat then cell B1 i j
                          else cell B2 i (j - ncols B1)) in
  product_entry c1 c2 i j = product_entry A1 B1 i j + product_entry A2 B2 i j.
Proof.
  intros E1 E2 Hi Hj c1 c2. unfold product_entry.
  change (ncols c1) with (ncols A1 + ncols A2)%nat.
  rewrite big_sum_app. f_equal.
  - apply big_sum_ext. intros k Hk. unfold c1, c2.
    rewrite !cell_build by lia.
    rewrite <- E1. now rewrite (proj2 (Nat.ltb_lt _ _) Hk).
  - apply big_sum_ext. intros k Hk. unfold c1, c2.
    rewrite !cell_build by lia.
    rewrite <- E1.
    rewrite (proj2 (Nat.ltb_ge _ _) (Nat.le_add_r (ncols A1) k)).
    now replace (ncols A1 + k - ncols A1)%nat with k by lia.
Qed.

Lemma hconcat_as_build (A B : ndarray) :
  wf A -> wf B -> nrows A = nrows B ->
  hconcat A B =
  build (nrows A) (ncols A + ncols B)
    (fun i j => if (j <? ncols A)%nat then cell A i j
                else cell B i (j - ncols A)).
Proof.
  intros WA WB E. pose proof (concatenate_hconcat A B WA WB E) as Q.
  rewrite (concatenate_ok A B E) in Q. congruence.
Qed.

Lemma mul_scalar_one (A : ndarray) : wf A -> mul_scalar A 1 = A.
Proof.
  intros W. unfold mul_scalar. rewrite map_entries_as_build by exact W.
  rewrite <- (build_cell A W) at 3.
  apply build_ext. intros i j _ _. ring.
Qed.

Lemma shape_eq (g1 g2 : LRCGeometry) :
  shape g1 = shape g2 <->
  nrows (_cost_1 g1) = nrows (_cost_1 g2) /\
  nrows (_cost_2 g1) = nrows (_cost_2 g2).
Proof.
  unfold shape. split.
  - intros H. now inversion H.
  - intros [-> ->]. reflexivity.
Qed.

(** What [add_lrc_geom] returns when both scales resolve and the shapes
    agree. *)
Lemma add_lrc_geom_ok (g1 g2 : LRCGeometry) (s1 s2 : R) :
  constructed g1 -> constructed g2 -> shape g1 = shape g2 ->
  scale_cost g1 = OK s1 -> scale_cost g2 = OK s2 ->
  let a1 := mul_scalar (_cost_1 g1) (sqrt s1) in
  let a2 := mul_scalar (_cost_1 g2) (sqrt s2) in
  let b1 := mul_scalar (_cost_2 g1) (sqrt s1) in
  let b2 := mul_scalar (_cost_2 g2) (sqrt s2) in
  add_lrc_geom g1 g2 =
  OK {| _cost_1 := hconcat a1 a2; _cost_2 := hconcat b1 b2; _bias := 0;
        _kwargs := Geometry_init (_kwargs g1); _scale_cost := PyNone |}.
Proof.
  intros (W11 & W12 & E1 & K1) (W21 & W22 & E2 & _) Hs H1 H2 a1 a2 b1 b2.
  apply shape_eq in Hs. destruct Hs as [N1 N2].
  unfold add_lrc_geom.
  rewrite (cost_1_ok g1 s1 H1), (cost_1_ok g2 s2 H2),
          (cost_2_ok g1 s1 H1), (cost_2_ok g2 s2 H2), !bind_OK.
  fold a1 a2 b1 b2.
  rewrite (concatenate_hconcat a1 a2);
    [| now apply wf_mul_scalar | now apply wf_mul_scalar
     | unfold a1, a2; now rewrite !nrows_mul_scalar].
  rewrite !bind_OK.
  rewrite (concatenate_hconcat b1 b2);
    [| now apply wf_mul_scalar | now apply wf_mul_scalar
     | unfold b1, b2; now rewrite !nrows_mul_scalar].
  rewrite !bind_OK.
  unfold LRCGeometry_init. rewrite K1. cbn [negb].
  assert (Hc : ncols (hconcat a1 a2) = ncols (hconcat b1 b2))
    by (simpl; congruence).
  now rewrite Hc, Nat.eqb_refl.
Qed.

(** The keyword dictionary plays no part in the cost matrix. *)
Lemma cost_matrix_ignores_kwargs (c1 c2 : ndarray) (b : R)
    (kw kw' : gmap string pyobj) (sc : pyobj) :
  cost_matrix {| _cost_1 := c1; _cost_2 := c2; _bias := b; _kwargs := kw;
                 _scale_cost := sc |} =
  cost_matrix {| _cost_1 := c1; _cost_2 := c2; _bias := b; _kwargs := kw';
                 _scale_cost := sc |}.
Proof. reflexivity. Qed.

(** The cost matrix of the geometry that [add_lrc_geom] returns. *)
Lemma merged_cost_matrix (g1 g2 : LRCGeometry) (s1 s2 : R) :
  constructed g1 -> constructed g2 -> shape g1 = shape g2 ->
  scale_cost g1 = OK s1 -> scale_cost g2 = OK s2 ->
  let a1 := mul_scalar (_cost_1 g1) (sqrt s1) in
  let a2 := mul_scalar (_cost_1 g2) (sqrt s2) in
  let b1 := mul_scalar (_cost_2 g1) (sqrt s1) in
  let b2 := mul_scalar (_cost_2 g2) (sqrt s2) in
  (do g <- add_lrc_geom g1 g2; cost_matrix g) =
  OK (build (fst (shape g1)) (snd (shape g1))
        (fun i j => product_entry a1 b1 i j + product_entry a2 b2 i j)).
Proof.
  intros Hg1 Hg2 Hs H1 H2 a1 a2 b1 b2.
  rewrite (add_lrc_geom_ok g1 g2 s1 s2 Hg1 Hg2 Hs H1 H2), bind_OK.
  fold a1 a2 b1 b2.
  rewrite (cost_matrix_ignores_kwargs _ _ _
             (Geometry_init (_kwargs g1)) (_kwargs g1)).
  destruct Hg1 as (W11 & W12 & E1 & K1). destruct Hg2 as (W21 & W22 & E2 & K2).
  pose proof (proj1 (shape_eq g1 g2) Hs) as [N1 N2].
  assert (Wa1 : wf a1) by now apply wf_mul_scalar.
  assert (Wa2 : wf a2) by now apply wf_mul_scalar.
  assert (Wb1 : wf b1) by now apply wf_mul_scalar.
  assert (Wb2 : wf b2) by now apply wf_mul_scalar.
  assert (Na : nrows a1 = nrows a2)
    by (unfold a1, a2; now rewrite !nrows_mul_scalar).
  assert (Nb : nrows b1 = nrows b2)
    by (unfold b1, b2; now rewrite !nrows_mul_scalar).
  set (g := {| _cost_1 := hconcat a1 a2 |}).
  assert (Hg : constructed g).
  { unfold constructed, g. simpl.
    repeat split; try (now apply wf_hconcat); try exact K1. congruence. }
  pose proof (hconcat_as_build a1 a2 Wa1 Wa2 Na) as Qa.
  pose proof (hconcat_as_build b1 b2 Wb1 Wb2 Nb) as Qb.
  assert (S1 : fst (shape g) = fst (shape g1))
    by (unfold shape, g; simpl; rewrite Qa, nrows_build;
        apply nrows_mul_scalar).
  assert (S2 : snd (shape g) = snd (shape g1))
    by (unfold shape, g; simpl; rewrite Qb, nrows_build;
        apply nrows_mul_scalar).
  rewrite (cost_matrix_ok g 1 Hg (scale_cost_none g eq_refl)), S1, S2.
  f_equal. apply build_ext. intros i j Hi Hj.
  change (_cost_1 g) with (hconcat a1 a2).
  change (_cost_2 g) with (hconcat b1 b2).
  change (_bias g) with 0.
  rewrite sqrt_1, !mul_scalar_one by now apply wf_hconcat.
  rewrite Qa, Qb.
  rewrite (product_entry_concat a1 a2 b1 b2 (nrows a1) (nrows b1) i j);
    try (simpl; congruence);
    try (unfold a1, b1; rewrite nrows_mul_scalar; assumption).
  ring.
Qed.

(** C3.  For two constructed geometries: when their shapes agree, their
    biases are zero and their scales resolve, [add_lrc_geom] returns the
    geometry that the constructor builds from the column-wise
    concatenations of the scaled factors of the operands and from the
    keyword parameters stored in the first operand (nothing of the
    second operand's parameters enters): its rank is the sum of the
    ranks, and its cost matrix is the sum of the two cost matrices.
    When the shapes differ the call never returns, and it raises the
    shape error of [jnp.concatenate] whenever the scaled factors of both
    operands can be computed.  An operand whose scale does not resolve
    makes the call fail with that operand's exception. *)
Theorem add_lrc_geom_merges (g1 g2 : LRCGeometry) :
  constructed g1 -> constructed g2 ->
  (shape g1 = shape g2 -> _bias g1 = 0 -> _bias g2 = 0 ->
   forall s1 s2, scale_cost g1 = OK s1 -> scale_cost g2 = OK s2 ->
   exists g C1 C2,
     add_lrc_geom g1 g2 = OK g /\
     LRCGeometry_init
       (hconcat (mul_scalar (_cost_1 g1) (sqrt s1))
                (mul_scalar (_cost_1 g2) (sqrt s2)))
       (hconcat (mul_scalar (_cost_2 g1) (sqrt s1))
                (mul_scalar (_cost_2 g2) (sqrt s2)))
       0 PyNone (_kwargs g1) = OK g /\
     wf (_cost_1 g) /\ wf (_cost_2 g) /\
     ncols (_cost_1 g) = ncols (_cost_2 g) /\
     _cost_1 g = hconcat (mul_scalar (_cost_1 g1) (sqrt s1))
                         (mul_scalar (_cost_1 g2) (sqrt s2)) /\
     _cost_2 g = hconcat (mul_scalar (_cost_2 g1) (sqrt s1))
                         (mul_scalar (_cost_2 g2) (sqrt s2)) /\
     cost_rank g = (cost_rank g1 + cost_rank g2)%nat /\
     shape g = shape g1 /\
     _kwargs g = Geometry_init (_kwargs g1) /\
     cost_matrix g1 = OK C1 /\ cost_matrix g2 = OK C2 /\
     cost_matrix g = OK (matrix_add C1 C2))
  /\
  (shape g1 <> shape g2 ->
   (forall g, add_lrc_geom g1 g2 <> OK g) /\
   (forall s1 s2, scale_cost g1 = OK s1 -> scale_cost g2 = OK s2 ->
      add_lrc_geom g1 g2 = Raise shape_error))
  /\
  (forall e, scale_cost g1 = Raise e -> add_lrc_geom g1 g2 = Raise e)
  /\
  (forall s1 e, scale_cost g1 = OK s1 -> scale_cost g2 = Raise e ->
     add_lrc_geom g1 g2 = Raise e).
Proof.
  intros Hg1 Hg2.
  assert (Fail1 : forall e, scale_cost g1 = Raise e ->
            add_lrc_geom g1 g2 = Raise e).
  { intros e H. destruct (scale_raise_derived g1 e H) as (Q & _).
    unfold add_lrc_geom. now rewrite Q. }
  assert (Fail2 : forall s1 e, scale_cost g1 = OK s1 ->
            scale_cost g2 = Raise e -> add_lrc_geom g1 g2 = Raise e).
  { intros s1 e H1 H2. destruct (scale_raise_derived g2 e H2) as (Q & _).
    unfold add_lrc_geom. now rewrite (cost_1_ok g1 s1 H1), Q. }
  split; [|split; [|split; [exact Fail1 | exact Fail2]]].
  - intros Hs Hb1 Hb2 s1 s2 H1 H2.
    pose proof (add_lrc_geom_ok g1 g2 s1 s2 Hg1 Hg2 Hs H1 H2) as Hadd.
    pose proof (merged_cost_matrix g1 g2 s1 s2 Hg1 Hg2 Hs H1 H2) as HM.
    cbv zeta in Hadd, HM. rewrite Hadd, bind_OK in HM.
    pose proof Hg1 as (W11 & W12 & E1 & K1).
    pose proof Hg2 as (W21 & W22 & E2 & K2).
    pose proof (proj1 (shape_eq g1 g2) Hs) as [N1 N2].
    set (a1 := mul_scalar (_cost_1 g1) (sqrt s1)) in *.
    set (a2 := mul_scalar (_cost_1 g2) (sqrt s2)) in *.
    set (b1 := mul_scalar (_cost_2 g1) (sqrt s1)) in *.
    set (b2 := mul_scalar (_cost_2 g2) (sqrt s2)) in *.
    assert (Wa1 : wf a1) by now apply wf_mul_scalar.
    assert (Wa2 : wf a2) by now apply wf_mul_scalar.
    assert (Wb1 : wf b1) by now apply wf_mul_scalar.
    assert (Wb2 : wf b2) by now apply wf_mul_scalar.
    assert (Na : nrows a1 = nrows a2)
      by (unfold a1, a2; now rewrite !nrows_mul_scalar).
    assert (Nb : nrows b1 = nrows b2)
      by (unfold b1, b2; now rewrite !nrows_mul_scalar).
    assert (Hc : ncols (hconcat a1 a2) = ncols (hconcat b1 b2))
      by (simpl; congruence).
    pose proof (hconcat_as_build a1 a2 Wa1 Wa2 Na) as Qa.
    pose proof (hconcat_as_build b1 b2 Wb1 Wb2 Nb) as Qb.
    assert (Hn1 : nrows (hconcat a1 a2) = nrows (_cost_1 g1))
      by (rewrite Qa, nrows_build; apply nrows_mul_scalar).
    assert (Hn2 : nrows (hconcat b1 b2) = nrows (_cost_2 g1))
      by (rewrite Qb, nrows_build; apply nrows_mul_scalar).
    eexists. eexists. eexists.
    split; [exact Hadd|].
    split; [unfold LRCGeometry_init; rewrite K1; cbn [negb];
            now rewrite Hc, Nat.eqb_refl|].
    split; [now apply wf_hconcat|]. split; [now apply wf_hconcat|].
    split; [exact Hc|].
    split; [reflexivity|]. split; [reflexivity|]. split; [reflexivity|].
    split; [unfold shape; simpl; now rewrite Hn1, Hn2|].
    split; [reflexivity|].
    split; [exact (cost_matrix_ok g1 s1 Hg1 H1)|].
    split; [exact (cost_matrix_ok g2 s2 Hg2 H2)|].
    rewrite HM. f_equal. unfold matrix_add. rewrite nrows_build, ncols_build.
    apply build_ext. intros i j Hi Hj.
    rewrite !cell_build by (rewrite <- ?Hs; assumption).
    rewrite Hb1, Hb2. unfold a1, a2, b1, b2. ring.
  - intros Hs.
    assert (Raised : forall s1 s2, scale_cost g1 = OK s1 -> scale_cost g2 = OK s2 ->
              add_lrc_geom g1 g2 = Raise shape_error).
    { intros s1 s2 H1 H2. unfold add_lrc_geom.
      rewrite (cost_1_ok g1 s1 H1), (cost_1_ok g2 s2 H2),
              (cost_2_ok g1 s1 H1), (cost_2_ok g2 s2 H2), !bind_OK.
      destruct (Nat.eq_dec (nrows (_cost_1 g1)) (nrows (_cost_1 g2))) as [N1|N1].
      - rewrite concatenate_ok by (now rewrite !nrows_mul_scalar).
        rewrite !bind_OK.
        rewrite concatenate_shape; [reflexivity|].
        rewrite !nrows_mul_scalar. intros N2. apply Hs.
        apply shape_eq. now split.
      - rewrite concatenate_shape; [reflexivity|].
        now rewrite !nrows_mul_scalar. }
    split; [|exact Raised].
    intros g Hadd.
    destruct (scale_cost g1) as [s1|e1] eqn:H1.
    + destruct (scale_cost g2) as [s2|e2] eqn:H2.
      * rewrite (Raised s1 s2 eq_refl eq_refl) in Hadd. discriminate.
      * rewrite (Fail2 s1 e2 eq_refl eq_refl) in Hadd. discriminate.
    + rewrite (Fail1 e1 eq_refl) in Hadd. discriminate.
Qed.

Lemma constructed_geom_d : constructed geom_d.
Proof.
  unfold constructed, wf, geom_d. simpl.
  repeat split; repeat constructor.
Qed.

(* ================================================================== *)
(** ** C4: what construction checks *)
(* ================================================================== *)

(** C4, as the code has it.  A constructor call whose keywords do not
    clash with the parameters fails with the assertion error exactly
    when the two factors differ in their number of columns, and
    otherwise stores its arguments (the keyword dictionary as the base
    constructor leaves it); every geometry it returns has factors with
    as many columns.  The rank itself is not examined. *)
Theorem init_checks_columns (c1 c2 : ndarray) (b : R) (sc : pyobj)
    (kw : gmap string pyobj) :
  no_param_clash kw = true ->
  (ncols c1 <> ncols c2 ->
     LRCGeometry_init c1 c2 b sc kw = Raise AssertionError) /\
  (ncols c1 = ncols c2 ->
     LRCGeometry_init c1 c2 b sc kw =
     OK {| _cost_1 := c1; _cost_2 := c2; _bias := b;
           _kwargs := Geometry_init kw; _scale_cost := sc |}) /\
  (forall g, LRCGeometry_init c1 c2 b sc kw = OK g ->
     ncols (_cost_1 g) = ncols (_cost_2 g) /\ cost_rank g = ncols c1).
Proof.
  intros K. unfold LRCGeometry_init. rewrite K. cbn [negb].
  repeat split.
  - intros E. now rewrite (proj2 (Nat.eqb_neq _ _) E).
  - intros E. now rewrite E, Nat.eqb_refl.
  - destruct (Nat.eqb_spec (ncols c1) (ncols c2)) as [E|E];
      cbn [negb] in H; [|discriminate].
    injection H as <-. exact E.
  - destruct (Nat.eqb_spec (ncols c1) (ncols c2)) as [E|E];
      cbn [negb] in H; [|discriminate].
    injection H as <-. reflexivity.
Qed.

(* ================================================================== *)
(** ** C5: the [max_bound] policy *)
(* ================================================================== *)

Lemma fold_max_nonneg (l : list R) : 0 <= fold_right Rmax 0 l.
Proof.
  destruct l as [|x l]; simpl; [lra|].
  induction l as [|y l IH] in x |- *; simpl.
  - apply Rmax_r.
  - eapply Rle_trans; [apply (IH y) | apply Rmax_r].
Qed.

Lemma fold_left_max (l : list R) (x : R) :
  0 <= x -> fold_left Rmax l x = Rmax x (fold_right Rmax 0 l).
Proof.
  revert x. induction l as [|y l IH]; intros x Hx; simpl.
  - now rewrite Rmax_left.
  - rewrite IH by (eapply Rle_trans; [exact Hx | apply Rmax_l]).
    now rewrite Rmax_assoc.
Qed.

Lemma max_abs_nonneg (A : ndarray) : 0 <= max_abs A.
Proof. apply fold_max_nonneg. Qed.

(** On an array with entries, [jnp.max(jnp.abs(A))] is [max_abs A]. *)
Lemma jnp_max_abs (A : ndarray) :
  (0 < array_size A)%nat -> jnp_max (jnp_abs A) = OK (max_abs A).
Proof.
  unfold array_size, jnp_max, jnp_abs, max_abs, map_entries. simpl rows.
  rewrite <- concat_map.
  destruct (concat (rows A)) as [|x l]; simpl; [lia|].
  intros _. f_equal. apply fold_left_max, Rabs_pos.
Qed.

Lemma jnp_max_empty (A : ndarray) :
  array_size A = O -> exists e, jnp_max (jnp_abs A) = Raise e.
Proof.
  unfold array_size, jnp_max, jnp_abs, map_entries. simpl rows.
  rewrite <- concat_map.
  destruct (concat (rows A)) as [|x l]; simpl; [|discriminate].
  intros _. eexists. reflexivity.
Qed.

(** Scaling an array by a non-negative factor scales its largest
    absolute value. *)
Lemma max_abs_mul_scalar (A : ndarray) (c : R) :
  0 <= c -> max_abs (mul_scalar A c) = c * max_abs A.
Proof.
  intros Hc. unfold max_abs, mul_scalar, map_entries. simpl rows.
  rewrite <- concat_map.
  induction (concat (rows A)) as [|x l IH]; simpl; [lra|].
  rewrite IH, Rabs_mult, (Rabs_pos_eq c Hc), (Rmult_comm (Rabs x) c).
  now apply RmaxRmult.
Qed.

Lemma scale_cost_max_bound (g : LRCGeometry) :
  _scale_cost g = PyStr "max_bound" ->
  (0 < array_size (_cost_1 g))%nat -> (0 < array_size (_cost_2 g))%nat ->
  scale_cost g = OK (1 / raw_bound g).
Proof.
  intros P S1 S2. unfold scale_cost. rewrite P. cbn [py_eq_str String.eqb Ascii.eqb Bool.eqb bind].
  rewrite (jnp_max_abs _ S1), (jnp_max_abs _ S2). reflexivity.
Qed.

(** C5, with the side conditions the code needs.  Under the
    [max_bound] policy, when both raw factors have entries the scale
    resolves to [1 / (max |A| * max |B| + |bias|)]; it depends on the raw
    factors, the bias and the policy only, so resolving it again gives
    the same value; and when that bound is not zero, the bound computed
    from the scaled factors and the scaled bias is 1. *)
Theorem max_bound_scale_normalizes (g : LRCGeometry) :
  _scale_cost g = PyStr "max_bound" ->
  (0 < array_size (_cost_1 g))%nat -> (0 < array_size (_cost_2 g))%nat ->
  scale_cost g = OK (1 / raw_bound g) /\
  (forall g', _cost_1 g' = _cost_1 g -> _cost_2 g' = _cost_2 g ->
              _bias g' = _bias g -> _scale_cost g' = _scale_cost g ->
              scale_cost g' = scale_cost g) /\
  (raw_bound g <> 0 ->
   exists f1 f2 b,
     cost_1 g = OK f1 /\ cost_2 g = OK f2 /\ bias g = OK b /\
     max_abs f1 * max_abs f2 + Rabs b = 1).
Proof.
  intros P S1 S2.
  pose proof (scale_cost_max_bound g P S1 S2) as H.
  split; [exact H|]. split.
  - intros g' E1 E2 E3 E4. unfold scale_cost, shape.
    now rewrite E1, E2, E3, E4.
  - intros HB.
    assert (Hpos : 0 < raw_bound g).
    { unfold raw_bound in *.
      pose proof (max_abs_nonneg (_cost_1 g)).
      pose proof (max_abs_nonneg (_cost_2 g)).
      pose proof (Rabs_pos (_bias g)). nra. }
    assert (Hs : 0 < 1 / raw_bound g)
      by (unfold Rdiv; rewrite Rmult_1_l; now apply Rinv_0_lt_compat).
    exists (mul_scalar (_cost_1 g) (sqrt (1 / raw_bound g))),
           (mul_scalar (_cost_2 g) (sqrt (1 / raw_bound g))),
           (_bias g * (1 / raw_bound g)).
    split; [now apply cost_1_ok|]. split; [now apply cost_2_ok|].
    split; [now apply bias_ok|].
    rewrite !max_abs_mul_scalar by apply sqrt_pos.
    rewrite Rabs_mult, (Rabs_pos_eq (1 / raw_bound g)) by lra.
    transitivity (sqrt (1 / raw_bound g) * sqrt (1 / raw_bound g) *
                  (max_abs (_cost_1 g) * max_abs (_cost_2 g))
                  + Rabs (_bias g) * (1 / raw_bound g)); [ring|].
    rewrite sqrt_sqrt by lra.
    unfold raw_bound in *. field. exact HB.
Qed.

Lemma max_bound_scale_normalizes_witness :
  scale_cost geom_bound = OK (1 / raw_bound geom_bound).
Proof.
  apply (max_bound_scale_normalizes geom_bound).
  - reflexivity.
  - unfold array_size. simpl. lia.
  - unfold array_size. simpl. lia.
Defined.

(** C5, as stated, fails on factors and bias that are all zero: the
    bound of the scaled quantities is 0, whatever real number stands for
    the scale [1 / 0] ([jnp] computes [inf] for the scale and [nan] for
    the scaled quantities). *)
Lemma max_bound_zero_geometry :
  _scale_cost geom_zero = PyStr "max_bound" /\
  exists f1 f2 b,
    cost_1 geom_zero = OK f1 /\ cost_2 geom_zero = OK f2 /\
    bias geom_zero = OK b /\
    max_abs f1 * max_abs f2 + Rabs b <> 1.
Proof.
  split; [reflexivity|].
  assert (H : scale_cost geom_zero = OK (1 / raw_bound geom_zero)).
  { apply scale_cost_max_bound; [reflexivity | |]; unfold array_size; simpl; lia. }
  set (s := 1 / raw_bound geom_zero) in H.
  exists (mul_scalar (_cost_1 geom_zero) (sqrt s)),
         (mul_scalar (_cost_2 geom_zero) (sqrt s)),
         (_bias geom_zero * s).
  split; [now apply cost_1_ok|]. split; [now apply cost_2_ok|].
  split; [now apply bias_ok|].
  rewrite !max_abs_mul_scalar by apply sqrt_pos.
  unfold max_abs, geom_zero. simpl.
  rewrite Rmult_0_l, Rabs_R0, Rmax_left by lra. lra.
Qed.

(* ================================================================== *)
(** ** C6: the [mean] policy *)
(* ================================================================== *)

Lemma nth_ones (i n : nat) : (i < n)%nat -> nth i (jnp_ones n) 0 = 1.
Proof. intros H. unfold jnp_ones. now apply nth_repeat_lt. Qed.

Lemma length_ones (n : nat) : length (jnp_ones n) = n.
Proof. apply repeat_length. Qed.

(** The sum of all inner products of rows factors through the column
    sums. *)
Lemma sum_of_products (a b : nat -> nat -> R) (n m r : nat) :
  big_sum (fun i => big_sum (fun j => big_sum (fun k => a i k * b j k) r) m) n
  = big_sum (fun k => big_sum (fun i => a i k) n * big_sum (fun j => b j k) m) r.
Proof.
  rewrite (big_sum_ext _
    (fun i => big_sum (fun k => big_sum (fun j => a i k * b j k) m) r))
    by (intros i _; apply big_sum_swap).
  rewrite big_sum_swap. apply big_sum_ext. intros k _.
  apply big_sum_mul.
Qed.

Lemma scale_cost_mean (g : LRCGeometry) :
  constructed g -> _scale_cost g = PyStr "mean" ->
  scale_cost g = OK (1 / raw_mean g).
Proof.
  intros (W1 & W2 & E & _) P. unfold scale_cost. rewrite P.
  cbn [py_eq_str String.eqb Ascii.eqb Bool.eqb bind]. unfold shape. cbn [fst snd].
  unfold jnp_dot_vm. rewrite length_ones, Nat.eqb_refl, bind_OK.
  rewrite jnp_dot_mv_dense
    by (apply wf_transpose || (rewrite ncols_transpose, length_ones; reflexivity)).
  rewrite bind_OK, dense_matvec_transpose.
  unfold jnp_dot_vv, dense_transpose_matvec.
  rewrite !length_map, !length_seq, (eqb_refl_nat _ _ E), bind_OK.
  f_equal. unfold raw_mean. rewrite mult_INR. f_equal. f_equal. f_equal.
  rewrite vdot_big_sum by (rewrite !length_map, !length_seq; exact E).
  rewrite length_map, length_seq. apply big_sum_ext. intros k Hk.
  rewrite (nth_map_seq _ (ncols (_cost_1 g))) by exact Hk.
  rewrite (nth_map_seq _ (ncols (_cost_2 g))) by (rewrite <- E; exact Hk).
  rewrite vdot_big_sum by (rewrite length_ones, length_column; reflexivity).
  rewrite length_ones. f_equal.
  - apply big_sum_ext. intros i Hi. rewrite nth_ones, nth_column by exact Hi. ring.
  - apply big_sum_ext. intros j Hj. rewrite nth_ones by exact Hj. ring.
Qed.

(** The mean of the cost matrix in terms of the unscaled mean. *)
Lemma scaled_mean (g : LRCGeometry) (s : R) :
  constructed g -> scale_cost g = OK s ->
  (0 < nrows (_cost_1 g))%nat -> (0 < nrows (_cost_2 g))%nat ->
  exists C, cost_matrix g = OK C /\
    matrix_mean C = sqrt s * sqrt s * (raw_mean g - _bias g) + _bias g * s.
Proof.
  intros Hg H Hn Hm. pose proof Hg as (W1 & W2 & E & _).
  rewrite (cost_matrix_ok g s Hg H). eexists. split; [reflexivity|].
  unfold matrix_mean, shape. cbn [fst snd]. rewrite nrows_build, ncols_build.
  set (n := nrows (_cost_1 g)) in *. set (m := nrows (_cost_2 g)) in *.
  rewrite (big_sum_ext _
    (fun i => big_sum (fun j =>
        sqrt s * sqrt s *
        big_sum (fun k => cell (_cost_1 g) i k * cell (_cost_2 g) j k)
                (ncols (_cost_1 g)) + _bias g * s) m)).
  2:{ intros i Hi. apply big_sum_ext. intros j Hj.
      rewrite cell_build by assumption. f_equal.
      unfold product_entry. change (ncols (mul_scalar _ _)) with (ncols (_cost_1 g)).
      rewrite <- big_sum_scal_l. apply big_sum_ext. intros k Hk.
      rewrite !cell_mul_scalar by (assumption || lia). ring. }
  rewrite (big_sum_ext _
    (fun i => sqrt s * sqrt s *
        big_sum (fun j =>
          big_sum (fun k => cell (_cost_1 g) i k * cell (_cost_2 g) j k)
                  (ncols (_cost_1 g))) m + INR m * (_bias g * s))).
  2:{ intros i Hi. now rewrite big_sum_plus, big_sum_scal_l, big_sum_const. }
  rewrite big_sum_plus, big_sum_scal_l, big_sum_const, sum_of_products.
  unfold raw_mean. fold n m.
  assert (INR n <> 0) by (apply not_0_INR; lia).
  assert (INR m <> 0) by (apply not_0_INR; lia).
  field. split; assumption.
Qed.

(** C6, with the side condition the code needs.  Under the [mean]
    policy the scale of a constructed geometry resolves, from the column
    sums of the factors alone, to
    [1 / ((1^T . A) . (B^T . 1) / (n * m) + bias)]; and when the geometry
    has entries and that unscaled mean is positive, the mean of the
    scaled cost matrix is 1. *)
Theorem mean_scale_normalizes (g : LRCGeometry) :
  constructed g -> _scale_cost g = PyStr "mean" ->
  scale_cost g = OK (1 / raw_mean g) /\
  ((0 < nrows (_cost_1 g))%nat -> (0 < nrows (_cost_2 g))%nat ->
   0 < raw_mean g ->
   exists C, cost_matrix g = OK C /\ matrix_mean C = 1).
Proof.
  intros Hg P. pose proof (scale_cost_mean g Hg P) as H.
  split; [exact H|]. intros Hn Hm Hpos.
  destruct (scaled_mean g _ Hg H Hn Hm) as (C & HC & HM).
  exists C. split; [exact HC|]. rewrite HM.
  assert (Hs : 0 < 1 / raw_mean g)
    by (unfold Rdiv; rewrite Rmult_1_l; now apply Rinv_0_lt_compat).
  rewrite sqrt_sqrt by lra. field. lra.
Qed.

Lemma constructed_geom_mean : constructed geom_mean.
Proof.
  unfold constructed, wf, geom_mean. simpl.
  repeat split; repeat constructor.
Qed.

Lemma mean_scale_normalizes_witness :
  scale_cost geom_mean = OK (1 / raw_mean geom_mean).
Proof.
  apply (mean_scale_normalizes geom_mean).
  - exact constructed_geom_mean.
  - reflexivity.
Defined.

Lemma constructed_geom_neg : constructed geom_neg.
Proof.
  unfold constructed, wf, geom_neg. simpl.
  repeat split; repeat constructor.
Qed.

(** C6, as stated, fails on a non-zero but negative unscaled mean: the
    scale is then negative, and the mean of the scaled cost matrix is
    not 1 whatever real number stands for the square root of the scale
    ([jnp.sqrt] gives [nan]). *)
Lemma mean_negative_geometry :
  _scale_cost geom_neg = PyStr "mean" /\
  raw_mean geom_neg = -1 /\ raw_mean geom_neg <> 0 /\
  scale_cost geom_neg = OK (1 / -1) /\
  exists C, cost_matrix geom_neg = OK C /\ matrix_mean C <> 1.
Proof.
  assert (M : raw_mean geom_neg = -1).
  { unfold raw_mean, geom_neg, cell. simpl. field. }
  pose proof (scale_cost_mean geom_neg constructed_geom_neg eq_refl) as H.
  rewrite M in H.
  split; [reflexivity|]. split; [exact M|]. split; [rewrite M; lra|].
  split; [exact H|].
  destruct (scaled_mean geom_neg _ constructed_geom_neg H) as (C & HC & HM);
    [unfold nrows; simpl; lia | unfold nrows; simpl; lia |].
  exists C. split; [exact HC|]. rewrite HM, M.
  change (_bias geom_neg) with 0.
  pose proof (sqrt_pos (1 / -1)). nra.
Qed.

(* ================================================================== *)
(** ** C7 and C8: policies that fail *)
(* ================================================================== *)

(** A failing scale resolution is the outcome of every operation that
    reads a scaled factor, the scaled bias or the cost matrix. *)
Lemma scale_raise_operations (is_linear : (R -> R) -> bool)
    (g : LRCGeometry) (e : exn) :
  scale_cost g = Raise e ->
  (forall vec axis fn, efficient_apply g vec axis fn = Raise e) /\
  (forall vec axis fn, _apply_cost_to_vec is_linear g vec axis fn = Raise e) /\
  (forall vec axis, apply_square_cost is_linear g vec axis = Raise e) /\
  (forall vec axis, apply_cost_1 g vec axis = Raise e) /\
  (forall vec axis, apply_cost_2 g vec axis = Raise e) /\
  (forall g2, add_lrc_geom g g2 = Raise e).
Proof.
  intros H. destruct (scale_raise_derived g e H) as (H1 & H2 & H3 & H4).
  assert (Eff : forall vec axis fn, efficient_apply g vec axis fn = Raise e).
  { intros vec axis fn. unfold efficient_apply. rewrite H1, H2.
    now destruct (axis =? 1)%Z. }
  split; [exact Eff|]. split.
  { intros vec axis fn. unfold _apply_cost_to_vec. now rewrite Eff. }
  split.
  { intros vec axis. unfold apply_square_cost, Geometry_apply_square_cost.
    destruct (shape g) as [n m]. rewrite H1, H4.
    now destruct (n * m <? (n + m) * cost_rank g ^ 2)%nat. }
  split; [intros vec axis; unfold apply_cost_1; now rewrite H1|].
  split; [intros vec axis; unfold apply_cost_2; now rewrite H2|].
  intros g2. unfold add_lrc_geom. now rewrite H1.
Qed.

(** C7.  Under the [max_cost] policy every resolution of the scale
    raises [NotImplementedError], and so does every operation that reads
    the scaled factors, the scaled bias or the cost matrix; no value is
    returned in its place. *)
Theorem max_cost_not_implemented (is_linear : (R -> R) -> bool)
    (g : LRCGeometry) :
  _scale_cost g = PyStr "max_cost" ->
  let e := NotImplementedError "Scaling max_cost not implemented." in
  scale_cost g = Raise e /\
  (forall s, scale_cost g <> OK s) /\
  cost_1 g = Raise e /\ cost_2 g = Raise e /\ bias g = Raise e /\
  cost_matrix g = Raise e /\
  (forall vec axis fn, _apply_cost_to_vec is_linear g vec axis fn = Raise e) /\
  (forall vec axis, apply_square_cost is_linear g vec axis = Raise e) /\
  (forall vec axis, apply_cost_1 g vec axis = Raise e) /\
  (forall vec axis, apply_cost_2 g vec axis = Raise e) /\
  (forall g2, add_lrc_geom g g2 = Raise e).
Proof.
  intros P e.
  assert (H : scale_cost g = Raise e).
  { unfold scale_cost. rewrite P. reflexivity. }
  destruct (scale_raise_derived g e H) as (H1 & H2 & H3 & H4).
  destruct (scale_raise_operations is_linear g e H)
    as (_ & A1 & A2 & A3 & A4 & A5).
  split; [exact H|]. split; [intros s Hs; rewrite H in Hs; discriminate|].
  repeat (split; [assumption|]). assumption.
Qed.

Lemma scale_cost_unknown_string (g : LRCGeometry) (s : string) :
  _scale_cost g = PyStr s ->
  s <> "max_bound"%string -> s <> "mean"%string -> s <> "max_cost"%string ->
  scale_cost g = Raise (ValueError ("Scaling " ++ s ++ " not provided.")).
Proof.
  intros P N1 N2 N3. unfold scale_cost. rewrite P. cbn [py_eq_str].
  destruct (String.eqb_spec s "max_bound"); [contradiction|].
  destruct (String.eqb_spec s "mean"); [contradiction|].
  destruct (String.eqb_spec s "max_cost"); [contradiction|].
  reflexivity.
Qed.

(** C8.  With a string policy other than [max_bound], [mean] and
    [max_cost], the constructor call succeeds as with any other policy
    (its factors having as many columns and its keywords not clashing
    with the parameters); [ValueError] is raised when the scale is
    resolved, and it is the whole outcome of the resolution and of every
    operation that depends on it. *)
Theorem unknown_policy_fails_lazily (is_linear : (R -> R) -> bool)
    (c1 c2 : ndarray) (b : R) (s : string) (kw : gmap string pyobj) :
  s <> "max_bound"%string -> s <> "mean"%string -> s <> "max_cost"%string ->
  ncols c1 = ncols c2 -> no_param_clash kw = true ->
  let e := ValueError ("Scaling " ++ s ++ " not provided.") in
  exists g,
    LRCGeometry_init c1 c2 b (PyStr s) kw = OK g /\
    _scale_cost g = PyStr s /\
    shape g = (nrows c1, nrows c2) /\ cost_rank g = ncols c1 /\
    scale_cost g = Raise e /\
    (forall x, scale_cost g <> OK x) /\
    cost_1 g = Raise e /\ cost_2 g = Raise e /\ bias g = Raise e /\
    cost_matrix g = Raise e /\
    (forall vec axis fn, _apply_cost_to_vec is_linear g vec axis fn = Raise e) /\
    (forall vec axis, apply_square_cost is_linear g vec axis = Raise e).
Proof.
  intros N1 N2 N3 E K e.
  exists {| _cost_1 := c1; _cost_2 := c2; _bias := b;
            _kwargs := Geometry_init kw; _scale_cost := PyStr s |}.
  set (g := {| _cost_1 := c1 |}).
  assert (H : scale_cost g = Raise e)
    by (now apply scale_cost_unknown_string).
  destruct (scale_raise_derived g e H) as (H1 & H2 & H3 & H4).
  destruct (scale_raise_operations is_linear g e H)
    as (_ & A1 & A2 & _).
  split.
  { unfold LRCGeometry_init. rewrite K, E, Nat.eqb_refl. reflexivity. }
  split; [reflexivity|]. split; [reflexivity|]. split; [reflexivity|].
  split; [exact H|]. split; [intros x Hx; rewrite H in Hx; discriminate|].
  repeat (split; [assumption|]). assumption.
Qed.

(* ================================================================== *)
(** ** C9: flattening and unflattening *)
(* ================================================================== *)



(* ================================================================== *)
(** ** C10: a scale that is neither a float nor a string *)
(* ================================================================== *)

(** A scale object that is not a float and answers [True] to
    [== 'max_bound'] is treated as that policy. *)
Lemma scale_cost_equal_max_bound (g : LRCGeometry) :
  isinstance_float (_scale_cost g) = false ->
  py_eq_str (_scale_cost g) "max_bound" = OK true ->
  (0 < array_size (_cost_1 g))%nat -> (0 < array_size (_cost_2 g))%nat ->
  scale_cost g = OK (1 / raw_bound g).
Proof.
  intros Hf Hm S1 S2. unfold scale_cost.
  destruct (_scale_cost g); try discriminate;
    rewrite Hm; cbn [bind];
    rewrite (jnp_max_abs _ S1), (jnp_max_abs _ S2); reflexivity.
Qed.

(** C10, as the code has it.  When [_scale_cost] holds an object that is
    neither a float nor a string and that does not compare equal to any
    of the three policy names, the scale resolves to 1 without an error
    and the stored object is not used: the scaled factors and the scaled
    bias are the raw ones times [sqrt 1] and 1.  [None], a [bool] and an
    [int] are such objects.  An instance of another class is asked by
    [==]: if its comparison with ['max_bound'] raises, the resolution
    raises; if it answers [True], the geometry is scaled by the
    [max_bound] policy.  A float is returned as it is. *)
Theorem non_float_scale_is_identity (g : LRCGeometry) :
  isinstance_float (_scale_cost g) = false ->
  isinstance_str (_scale_cost g) = false ->
  (py_eq_str (_scale_cost g) "max_bound" = OK false ->
   py_eq_str (_scale_cost g) "mean" = OK false ->
   py_eq_str (_scale_cost g) "max_cost" = OK false ->
   scale_cost g = OK 1 /\
   cost_1 g = OK (mul_scalar (_cost_1 g) (sqrt 1)) /\
   cost_2 g = OK (mul_scalar (_cost_2 g) (sqrt 1)) /\
   bias g = OK (_bias g * 1)) /\
  ((_scale_cost g = PyNone \/ (exists b, _scale_cost g = PyBool b) \/
    (exists z, _scale_cost g = PyInt z)) -> scale_cost g = OK 1) /\
  (forall e, py_eq_str (_scale_cost g) "max_bound" = Raise e ->
     scale_cost g = Raise e) /\
  (py_eq_str (_scale_cost g) "max_bound" = OK true ->
   (0 < array_size (_cost_1 g))%nat -> (0 < array_size (_cost_2 g))%nat ->
   scale_cost g = OK (1 / raw_bound g)) /\
  (forall g' x, _scale_cost g' = PyFloat x -> scale_cost g' = OK x).
Proof.
  intros Hf Hs. split; [|split; [|split; [|split]]].
  - intros H1 H2 H3.
    assert (H : scale_cost g = OK 1).
    { unfold scale_cost.
      destruct (_scale_cost g); try discriminate;
        rewrite H1; cbn [bind]; rewrite H2; cbn [bind]; rewrite H3;
        reflexivity. }
    split; [exact H|]. split; [now apply cost_1_ok|].
    split; [now apply cost_2_ok|]. now apply bias_ok.
  - intros [E | [[b E] | [z E]]]; unfold scale_cost; now rewrite E.
  - intros e He. unfold scale_cost.
    destruct (_scale_cost g); try discriminate; now rewrite He.
  - intros Hm S1 S2. now apply scale_cost_equal_max_bound.
  - intros g' x P. unfold scale_cost. now rewrite P.
Qed.

Lemma non_float_scale_is_identity_witness :
  _scale_cost geom_int = PyInt 2 /\ scale_cost geom_int = OK 1.
Proof.
  split; [reflexivity|].
  exact (proj1 (proj1 (non_float_scale_is_identity geom_int eq_refl eq_refl)
                  eq_refl eq_refl eq_refl)).
Defined.

(** C10, as stated, fails on an object of another class whose [__eq__]
    answers [True]: it is neither a float nor a string, and the scale
    resolves by the [max_bound] policy to 1 / 2, not to 1. *)
Lemma non_float_scale_equal_to_policy :
  isinstance_float (_scale_cost geom_eq_all) = false /\
  isinstance_str (_scale_cost geom_eq_all) = false /\
  scale_cost geom_eq_all = OK (1 / 2) /\
  scale_cost geom_eq_all <> OK 1.
Proof.
  assert (B : raw_bound geom_eq_all = 2).
  { unfold raw_bound, max_abs, geom_eq_all. simpl.
    rewrite Rabs_R0, !Rabs_pos_eq, !Rmax_left by lra. lra. }
  assert (H : scale_cost geom_eq_all = OK (1 / 2)).
  { rewrite <- B. apply scale_cost_equal_max_bound;
      try reflexivity; unfold array_size; simpl; lia. }
  split; [reflexivity|]. split; [reflexivity|]. split; [exact H|].
  rewrite H. intros Q. injection Q as Q. lra.
Qed.

(* ================================================================== *)
(** ** Symmetry *)
(* ================================================================== *)

Lemma Reqb_true (x y : R) : Reqb x y = true <-> x = y.
Proof. unfold Reqb. destruct (Req_dec_T x y); split; congruence. Qed.

(** Rectangular arrays of one shape with the same entries are equal. *)
Lemma ndarray_ext (A B : ndarray) :
  wf A -> wf B -> nrows A = nrows B -> ncols A = ncols B ->
  (forall i j, (i < nrows A)%nat -> (j < ncols A)%nat ->
               cell A i j = cell B i j) ->
  A = B.
Proof.
  intros WA WB N E H.
  rewrite <- (build_cell A WA), <- (build_cell B WB), <- N, <- E.
  now apply build_ext.
Qed.

Lemma broadcast_idx_same (n i : nat) : (i < n)%nat -> broadcast_idx n i = i.
Proof.
  intros H. unfold broadcast_idx.
  destruct (Nat.eqb_spec n 1); [lia | reflexivity].
Qed.

Lemma jnp_equal_same_shape (A B : ndarray) :
  nrows A = nrows B -> ncols A = ncols B ->
  jnp_equal A B =
  OK (map (fun i => map (fun j => Reqb (cell A i j) (cell B i j))
                        (seq 0 (ncols A)))
          (seq 0 (nrows A))).
Proof.
  intros N E. unfold jnp_equal, broadcast_ok, broadcast_len.
  rewrite <- N, <- E, !Nat.eqb_refl. cbn [orb andb].
  replace (if (nrows A =? 1)%nat then nrows A else nrows A) with (nrows A)
    by now destruct (nrows A =? 1)%nat.
  replace (if (ncols A =? 1)%nat then ncols A else ncols A) with (ncols A)
    by now destruct (ncols A =? 1)%nat.
  f_equal. apply map_ext_in. intros i Hi. apply in_seq in Hi.
  apply map_ext_in. intros j Hj. apply in_seq in Hj.
  now rewrite !broadcast_idx_same by lia.
Qed.

Lemma jnp_all_grid (n m : nat) (p : nat -> nat -> bool) :
  jnp_all (map (fun i => map (p i) (seq 0 m)) (seq 0 n)) = true <->
  forall i j, (i < n)%nat -> (j < m)%nat -> p i j = true.
Proof.
  unfold jnp_all. rewrite forallb_forall. split.
  - intros H i j Hi Hj.
    assert (Hrow : forallb (fun b : bool => b) (map (p i) (seq 0 m)) = true).
    { apply H. apply in_map_iff. exists i. split; [reflexivity|].
      apply in_seq. lia. }
    rewrite forallb_forall in Hrow.
    apply (Hrow (p i j)). apply in_map_iff. exists j.
    split; [reflexivity | apply in_seq; lia].
  - intros H row Hrow. apply in_map_iff in Hrow. destruct Hrow as [i [<- Hi]].
    apply in_seq in Hi. apply forallb_forall. intros b Hb.
    apply in_map_iff in Hb. destruct Hb as [j [<- Hj]].
    apply in_seq in Hj. apply H; lia.
Qed.

(** [is_symmetric] of a constructed geometry never raises and decides
    whether the two raw factors are the same array. *)
Lemma is_symmetric_decides (g : LRCGeometry) :
  constructed g ->
  (is_symmetric g = OK true /\ _cost_1 g = _cost_2 g) \/
  (is_symmetric g = OK false /\ _cost_1 g <> _cost_2 g).
Proof.
  intros (W1 & W2 & E & _). unfold is_symmetric.
  destruct (Nat.eqb_spec (nrows (_cost_1 g)) (nrows (_cost_2 g))) as [N|N].
  - rewrite (jnp_equal_same_shape _ _ N E), bind_OK.
    destruct (jnp_all _) eqn:Hall.
    + left. split; [reflexivity|].
      apply ndarray_ext; try assumption.
      intros i j Hi Hj. apply Reqb_true.
      exact (proj1 (jnp_all_grid _ _ _) Hall i j Hi Hj).
    + right. split; [reflexivity|]. intros Heq.
      assert (Hall' : jnp_all
                (map (fun i => map (fun j =>
                        Reqb (cell (_cost_1 g) i j) (cell (_cost_2 g) i j))
                      (seq 0 (ncols (_cost_1 g))))
                     (seq 0 (nrows (_cost_1 g)))) = true).
      { apply jnp_all_grid. intros i j _ _. apply Reqb_true. now rewrite Heq. }
      congruence.
  - right. split; [reflexivity|]. intros Heq. apply N. now rewrite Heq.
Qed.

(** X1.  For a constructed geometry, [is_symmetric] returns without an
    exception, and it returns [True] exactly when the two raw factors are
    the same array (same shape, same entries); in particular it is
    [False] whenever the two point sets differ in size. *)
Theorem is_symmetric_iff_same_factors (g : LRCGeometry) :
  constructed g ->
  (exists b, is_symmetric g = OK b) /\
  (is_symmetric g = OK true <-> _cost_1 g = _cost_2 g) /\
  (fst (shape g) <> snd (shape g) -> is_symmetric g = OK false).
Proof.
  intros Hg. destruct (is_symmetric_decides g Hg) as [[H E] | [H E]].
  - split; [eauto|]. split; [tauto|].
    intros N. exfalso. apply N. unfold shape. simpl. now rewrite E.
  - split; [eauto|]. split; [|intros _; exact H].
    split; [rewrite H; discriminate | contradiction].
Qed.

Lemma constructed_geom_sym : constructed geom_sym.
Proof.
  unfold constructed, wf, geom_sym. simpl.
  repeat split; repeat constructor.
Qed.

Lemma is_symmetric_iff_same_factors_witness : is_symmetric geom_sym = OK true.
Proof.
  apply (proj1 (proj2 (is_symmetric_iff_same_factors geom_sym
                         constructed_geom_sym))).
  reflexivity.
Defined.

Lemma product_entry_scaled (A B : ndarray) (t : R) (i j : nat) :
  wf A -> wf B -> ncols A = ncols B ->
  (i < nrows A)%nat -> (j < nrows B)%nat ->
  product_entry (mul_scalar A t) (mul_scalar B t) i j =
  t * t * product_entry A B i j.
Proof.
  intros WA WB E Hi Hj. unfold product_entry.
  change (ncols (mul_scalar A t)) with (ncols A).
  rewrite <- big_sum_scal_l. apply big_sum_ext. intros k Hk.
  rewrite !cell_mul_scalar by (assumption || lia). ring.
Qed.

Lemma product_entry_sym (A : ndarray) (i j : nat) :
  product_entry A A i j = product_entry A A j i.
Proof. unfold product_entry. apply big_sum_ext. intros k _. ring. Qed.

(** X2.  When [is_symmetric] holds for a constructed geometry, its shape
    is square and its cost matrix is equal to its own transpose. *)
Theorem is_symmetric_cost_matrix (g : LRCGeometry) (C : ndarray) :
  constructed g -> is_symmetric g = OK true -> cost_matrix g = OK C ->
  fst (shape g) = snd (shape g) /\ jnp_transpose C = C.
Proof.
  intros Hg Hsym HC.
  destruct (is_symmetric_decides g Hg) as [[_ E] | [H _]];
    [|rewrite H in Hsym; discriminate].
  assert (N : fst (shape g) = snd (shape g))
    by (unfold shape; simpl; now rewrite E).
  split; [exact N|].
  destruct (scale_cost g) as [s|e] eqn:Hs.
  - rewrite (cost_matrix_ok g s Hg Hs) in HC. injection HC as <-.
    unfold jnp_transpose. rewrite nrows_build, ncols_build, <- E.
    apply build_ext. intros k i Hk Hi.
    rewrite cell_build by assumption.
    f_equal. apply product_entry_sym.
  - destruct (scale_raise_derived g e Hs) as (_ & _ & _ & H4).
    rewrite H4 in HC. discriminate.
Qed.

Lemma is_symmetric_geom_sym : is_symmetric geom_sym = OK true.
Proof.
  destruct (is_symmetric_decides geom_sym constructed_geom_sym)
    as [[H _] | [_ N]]; [exact H | now contradiction N].
Qed.

Lemma is_symmetric_cost_matrix_witness :
  exists C, cost_matrix geom_sym = OK C /\ jnp_transpose C = C.
Proof.
  eexists. split.
  - exact (cost_matrix_ok geom_sym 4 constructed_geom_sym eq_refl).
  - apply (is_symmetric_cost_matrix geom_sym).
    + exact constructed_geom_sym.
    + exact is_symmetric_geom_sym.
    + exact (cost_matrix_ok geom_sym 4 constructed_geom_sym eq_refl).
Defined.

(* ================================================================== *)
(** ** Scaling of the cost *)
(* ================================================================== *)

(** With a non-negative scale, the square-root split of the scale over
    the two factors scales their product by the scale itself. *)
Lemma cost_matrix_scaled (g : LRCGeometry) (s : R) :
  constructed g -> scale_cost g = OK s -> 0 <= s ->
  cost_matrix g = OK (mul_scalar (unscaled_cost g) s).
Proof.
  intros Hg H Hs. pose proof Hg as (W1 & W2 & E & _).
  rewrite (cost_matrix_ok g s Hg H). f_equal.
  unfold unscaled_cost.
  change (mul_scalar (build ?n ?m ?F) s)
    with (map_entries (fun x => x * s) (build n m F)).
  rewrite map_entries_build.
  apply build_ext. intros i j Hi Hj.
  rewrite product_entry_scaled by assumption.
  rewrite sqrt_sqrt by exact Hs. ring.
Qed.

(** X3.  Whatever the policy, when the scale of a constructed geometry
    resolves to a non-negative number [s], the cost matrix is the
    unscaled cost [A . B^T + bias] multiplied by [s] entry by entry: a
    fixed float scale multiplies the cost. *)
Theorem cost_matrix_is_scaled_cost (g : LRCGeometry) (s : R) :
  constructed g -> scale_cost g = OK s -> 0 <= s ->
  cost_matrix g = OK (mul_scalar (unscaled_cost g) s) /\
  forall i j, (i < fst (shape g))%nat -> (j < snd (shape g))%nat ->
    cell (mul_scalar (unscaled_cost g) s) i j =
    (product_entry (_cost_1 g) (_cost_2 g) i j + _bias g) * s.
Proof.
  intros Hg H Hs. split; [now apply cost_matrix_scaled|].
  intros i j Hi Hj. unfold unscaled_cost.
  rewrite cell_mul_scalar
    by (apply wf_build || (rewrite nrows_build; exact Hi) || exact Hj).
  now rewrite cell_build.
Qed.

Lemma cost_matrix_is_scaled_cost_witness :
  cost_matrix geom_sym = OK (mul_scalar (unscaled_cost geom_sym) 4).
Proof.
  apply (cost_matrix_is_scaled_cost geom_sym 4).
  - exact constructed_geom_sym.
  - reflexivity.
  - lra.
Defined.

(** The reduction over the column sums of the factors is the mean of the
    materialized unscaled cost. *)
Lemma mean_unscaled (g : LRCGeometry) :
  constructed g ->
  (0 < fst (shape g))%nat -> (0 < snd (shape g))%nat ->
  matrix_mean (unscaled_cost g) = raw_mean g.
Proof.
  intros (W1 & W2 & E & _) Hn Hm.
  unfold matrix_mean, unscaled_cost, shape in *. cbn [fst snd] in *.
  rewrite nrows_build, ncols_build.
  set (n := nrows (_cost_1 g)) in *. set (m := nrows (_cost_2 g)) in *.
  rewrite (big_sum_ext _
    (fun i =>
        big_sum (fun j =>
          big_sum (fun k => cell (_cost_1 g) i k * cell (_cost_2 g) j k)
                  (ncols (_cost_1 g))) m + INR m * _bias g)).
  2:{ intros i Hi. rewrite <- big_sum_const, <- big_sum_plus.
      apply big_sum_ext. intros j Hj. now rewrite cell_build. }
  rewrite big_sum_plus, big_sum_const, sum_of_products.
  unfold raw_mean. fold n m.
  assert (INR n <> 0) by (apply not_0_INR; lia).
  assert (INR m <> 0) by (apply not_0_INR; lia).
  field. split; assumption.
Qed.

(** X4.  Under the [mean] policy the scale of a constructed geometry
    with entries is the reciprocal of the mean of the materialized
    unscaled cost matrix [A . B^T + bias], although the code never
    builds that matrix. *)
Theorem mean_policy_is_materialized_mean (g : LRCGeometry) :
  constructed g -> _scale_cost g = PyStr "mean" ->
  (0 < fst (shape g))%nat -> (0 < snd (shape g))%nat ->
  scale_cost g = OK (1 / matrix_mean (unscaled_cost g)).
Proof.
  intros Hg P Hn Hm. rewrite (mean_unscaled g Hg Hn Hm).
  now apply scale_cost_mean.
Qed.

Lemma mean_policy_is_materialized_mean_witness :
  scale_cost geom_mean = OK (1 / matrix_mean (unscaled_cost geom_mean)).
Proof.
  apply (mean_policy_is_materialized_mean geom_mean).
  - exact constructed_geom_mean.
  - reflexivity.
  - unfold shape, nrows. simpl. lia.
  - unfold shape, nrows. simpl. lia.
Defined.

Lemma In_le_fold_max (x : R) (l : list R) :
  In x l -> Rabs x <= fold_right Rmax 0 (map Rabs l).
Proof.
  induction l as [|y l IH]; simpl; [tauto|].
  intros [-> | H].
  - apply Rmax_l.
  - eapply Rle_trans; [now apply IH | apply Rmax_r].
Qed.

Lemma cell_le_max_abs (A : ndarray) (i j : nat) :
  wf A -> (i < nrows A)%nat -> (j < ncols A)%nat ->
  Rabs (cell A i j) <= max_abs A.
Proof.
  intros W Hi Hj. unfold max_abs. apply In_le_fold_max.
  apply in_concat. exists (nth i (rows A) []). split.
  - apply nth_In. exact Hi.
  - unfold cell. apply nth_In. now rewrite row_length.
Qed.

Lemma big_sum_abs_le (f : nat -> R) (n : nat) (c : R) :
  (forall k, (k < n)%nat -> Rabs (f k) <= c) ->
  Rabs (big_sum f n) <= INR n * c.
Proof.
  induction n as [|n IH]; intros H.
  - simpl. rewrite Rabs_R0. lra.
  - rewrite S_INR. simpl.
    eapply Rle_trans; [apply Rabs_triang|].
    specialize (IH (fun k Hk => H k (Nat.lt_lt_succ_r _ _ Hk))).
    specialize (H n (Nat.lt_succ_diag_r n)). lra.
Qed.

Lemma product_entry_bound (A B : ndarray) (i j : nat) :
  wf A -> wf B -> ncols A = ncols B ->
  (i < nrows A)%nat -> (j < nrows B)%nat ->
  Rabs (product_entry A B i j) <= INR (ncols A) * (max_abs A * max_abs B).
Proof.
  intros WA WB E Hi Hj. unfold product_entry.
  apply big_sum_abs_le. intros k Hk. rewrite Rabs_mult.
  apply Rmult_le_compat; try apply Rabs_pos.
  - now apply cell_le_max_abs.
  - apply cell_le_max_abs; try assumption. lia.
Qed.

(** X5.  Under the [max_bound] policy, for a constructed geometry whose
    factors have entries and whose bound is not zero, every entry of the
    cost matrix is bounded in absolute value by the rank (by 1 for rank
    1): the policy bounds each product of two factor entries, and an
    entry of the cost sums [r] of them. *)
Theorem max_bound_bounds_entries (g : LRCGeometry) :
  constructed g -> _scale_cost g = PyStr "max_bound" ->
  (0 < array_size (_cost_1 g))%nat -> (0 < array_size (_cost_2 g))%nat ->
  raw_bound g <> 0 ->
  exists C, cost_matrix g = OK C /\
    forall i j, (i < fst (shape g))%nat -> (j < snd (shape g))%nat ->
      Rabs (cell C i j) <= Rmax 1 (INR (cost_rank g)).
Proof.
  intros Hg P S1 S2 HB. pose proof Hg as (W1 & W2 & E & _).
  pose proof (scale_cost_max_bound g P S1 S2) as H.
  pose proof (max_abs_nonneg (_cost_1 g)) as M1.
  pose proof (max_abs_nonneg (_cost_2 g)) as M2.
  pose proof (Rabs_pos (_bias g)) as M3.
  assert (Hpos : 0 < raw_bound g) by (unfold raw_bound in *; nra).
  assert (Hs : 0 < 1 / raw_bound g)
    by (unfold Rdiv; rewrite Rmult_1_l; now apply Rinv_0_lt_compat).
  eexists. split; [apply (cost_matrix_scaled g _ Hg H); lra|].
  intros i j Hi Hj. unfold unscaled_cost.
  rewrite cell_mul_scalar
    by (apply wf_build || (rewrite nrows_build; exact Hi) || exact Hj).
  rewrite cell_build by assumption.
  rewrite Rabs_mult, (Rabs_pos_eq (1 / raw_bound g)) by lra.
  pose proof (product_entry_bound (_cost_1 g) (_cost_2 g) i j W1 W2 E Hi Hj)
    as HP.
  pose proof (Rabs_triang (product_entry (_cost_1 g) (_cost_2 g) i j)
                (_bias g)) as HT.
  set (K := Rmax 1 (INR (cost_rank g))).
  assert (K1 : 1 <= K) by apply Rmax_l.
  assert (K2 : INR (ncols (_cost_1 g)) <= K) by apply Rmax_r.
  assert (HM : 0 <= max_abs (_cost_1 g) * max_abs (_cost_2 g)) by nra.
  assert (Hsum : Rabs (product_entry (_cost_1 g) (_cost_2 g) i j + _bias g)
                 <= K * raw_bound g).
  { unfold raw_bound. nra. }
  apply Rle_trans with (K * raw_bound g * (1 / raw_bound g));
    [apply Rmult_le_compat_r; lra | right; field; exact HB].
Qed.

Lemma constructed_geom_bound : constructed geom_bound.
Proof.
  unfold constructed, wf, geom_bound. simpl.
  repeat split; repeat constructor.
Qed.

Lemma max_bound_bounds_entries_witness :
  exists C, cost_matrix geom_bound = OK C /\
    forall i j, (i < 2)%nat -> (j < 1)%nat -> Rabs (cell C i j) <= Rmax 1 1.
Proof.
  apply (max_bound_bounds_entries geom_bound).
  - exact constructed_geom_bound.
  - reflexivity.
  - unfold array_size. simpl. lia.
  - unfold array_size. simpl. lia.
  - unfold raw_bound, max_abs, geom_bound. simpl.
    pose proof (Rabs_pos 2). pose proof (Rabs_pos 3).
    pose proof (Rmax_l (Rabs (-2)) (Rmax (Rabs 1) 0)).
    pose proof (Rmax_l (Rabs 3) 0).
    rewrite (Rabs_left (-2)) in * by lra.
    rewrite (Rabs_pos_eq 3) in * by lra.
    rewrite (Rabs_pos_eq 2) in * by lra.
    nra.
Defined.

(* ================================================================== *)
(** ** Vector application: composition, functions, wrong lengths *)
(* ================================================================== *)

(** The value of the fast path, for a scale that resolves. *)
Lemma apply_cost_to_vec_fast_form (is_linear : (R -> R) -> bool)
    (g : LRCGeometry) (vec : list R) (axis : Z) (s : R) :
  constructed g -> (axis = 0 \/ axis = 1)%Z ->
  length vec = axis_length g axis -> scale_cost g = OK s ->
  let f1 := mul_scalar (_cost_1 g) (sqrt s) in
  let f2 := mul_scalar (_cost_2 g) (sqrt s) in
  let c1 := if (axis =? 1)%Z then f1 else f2 in
  let c2 := if (axis =? 1)%Z then f2 else f1 in
  _apply_cost_to_vec is_linear g vec axis None =
  OK (map (fun o => o + _bias g * s * jnp_sum vec)
          (dense_matvec c1 (dense_transpose_matvec c2 vec))).
Proof.
  intros Hg Hax L H f1 f2 c1 c2.
  pose proof (efficient_apply_dense g vec axis Hg Hax L) as HE.
  pose proof (base_apply_dense g vec axis Hg Hax L) as HB.
  rewrite (cost_matrix_ok g s Hg H), bind_OK in HE, HB.
  unfold _apply_cost_to_vec. rewrite HB.
  transitivity (efficient_apply g vec axis None);
    [rewrite HE; reflexivity|].
  destruct Hg as (W1 & W2 & E & _).
  unfold efficient_apply, axis_length in *.
  rewrite (cost_1_ok g s H), (cost_2_ok g s H), (bias_ok g s H).
  subst c1 c2 f1 f2.
  destruct (axis_cases axis Hax) as [[A0 A1] | [A0 A1]];
    rewrite A0 in L; rewrite A1, !bind_OK; cbv zeta; simpl in L;
    apply fast_kernel_form;
    (now apply wf_mul_scalar) || (simpl; congruence)
    || (rewrite nrows_mul_scalar; exact L).
Qed.

(** X6.  Vector application factors through the two single-factor
    operations: along axis 1 it is [apply_cost_1] (not transposed) after
    [apply_cost_2] (transposed), along axis 0 it is [apply_cost_2] after
    [apply_cost_1], and in both cases [bias * sum(vec)] is then added to
    every entry. *)
Theorem apply_cost_to_vec_composes (is_linear : (R -> R) -> bool)
    (g : LRCGeometry) (vec : list R) (axis : Z) (s : R) :
  constructed g -> (axis = 0 \/ axis = 1)%Z ->
  length vec = axis_length g axis -> scale_cost g = OK s ->
  exists inner out,
    (if (axis =? 1)%Z then apply_cost_2 g vec 1 else apply_cost_1 g vec 1)
      = OK inner /\
    (if (axis =? 1)%Z then apply_cost_1 g inner 0 else apply_cost_2 g inner 0)
      = OK out /\
    _apply_cost_to_vec is_linear g vec axis None =
      OK (map (fun o => o + _bias g * s * jnp_sum vec) out).
Proof.
  intros Hg Hax L H.
  pose proof (apply_cost_to_vec_fast_form is_linear g vec axis s Hg Hax L H)
    as HF. cbv zeta in HF.
  destruct Hg as (W1 & W2 & E & _).
  set (f1 := mul_scalar (_cost_1 g) (sqrt s)) in *.
  set (f2 := mul_scalar (_cost_2 g) (sqrt s)) in *.
  assert (Wf1 : wf f1) by now apply wf_mul_scalar.
  assert (Wf2 : wf f2) by now apply wf_mul_scalar.
  unfold axis_length in L.
  destruct (axis_cases axis Hax) as [[A0 A1] | [A0 A1]];
    rewrite A0 in L; rewrite A1 in *; simpl in L.
  - exists (dense_transpose_matvec f1 vec),
           (dense_matvec f2 (dense_transpose_matvec f1 vec)).
    split; [|split; [|exact HF]].
    + unfold apply_cost_1. rewrite (cost_1_ok g s H), bind_OK.
      change (1 =? 0)%Z with false. cbv iota.
      rewrite jnp_dot_mv_dense, dense_matvec_transpose;
        [reflexivity | apply wf_transpose |].
      rewrite ncols_transpose. unfold f1. now rewrite nrows_mul_scalar.
    + unfold apply_cost_2. rewrite (cost_2_ok g s H), bind_OK.
      change (0 =? 0)%Z with true. cbv iota. fold f2.
      rewrite jnp_dot_mv_dense; [reflexivity | exact Wf2 |].
      unfold dense_transpose_matvec. rewrite length_map, length_seq.
      simpl. congruence.
  - exists (dense_transpose_matvec f2 vec),
           (dense_matvec f1 (dense_transpose_matvec f2 vec)).
    split; [|split; [|exact HF]].
    + unfold apply_cost_2. rewrite (cost_2_ok g s H), bind_OK.
      change (1 =? 0)%Z with false. cbv iota.
      rewrite jnp_dot_mv_dense, dense_matvec_transpose;
        [reflexivity | apply wf_transpose |].
      rewrite ncols_transpose. unfold f2. now rewrite nrows_mul_scalar.
    + unfold apply_cost_1. rewrite (cost_1_ok g s H), bind_OK.
      change (0 =? 0)%Z with true. cbv iota. fold f1.
      rewrite jnp_dot_mv_dense; [reflexivity | exact Wf1 |].
      unfold dense_transpose_matvec. rewrite length_map, length_seq.
      simpl. congruence.
Qed.

Lemma apply_cost_to_vec_composes_witness :
  exists inner out,
    apply_cost_2 geom_a [1; 1] 1 = OK inner /\
    apply_cost_1 geom_a inner 0 = OK out /\
    _apply_cost_to_vec (fun _ => false) geom_a [1; 1] 1 None =
      OK (map (fun o => o + 1 * 1 * jnp_sum [1; 1]) out).
Proof.
  apply (apply_cost_to_vec_composes (fun _ => false) geom_a [1; 1] 1 1).
  - exact constructed_geom_a.
  - right. reflexivity.
  - reflexivity.
  - reflexivity.
Defined.

(** X7.  A vector whose length is not the one the axis selects makes
    [_apply_cost_to_vec] raise the shape error of [jnp.dot], with or
    without [fn], once the scale has resolved; every axis other than 1
    selects the length of the first axis. *)
Theorem apply_cost_to_vec_wrong_length (is_linear : (R -> R) -> bool)
    (g : LRCGeometry) (vec : list R) (axis : Z) (fn : option (R -> R))
    (s : R) :
  scale_cost g = OK s ->
  length vec <> (if (axis =? 1)%Z then snd (shape g) else fst (shape g)) ->
  _apply_cost_to_vec is_linear g vec axis fn = Raise shape_error.
Proof.
  intros H L. unfold _apply_cost_to_vec, efficient_apply.
  rewrite (cost_1_ok g s H), (cost_2_ok g s H), (bias_ok g s H).
  unfold shape in L. cbn [fst snd] in L.
  destruct (axis =? 1)%Z; rewrite !bind_OK; cbv zeta;
    rewrite jnp_dot_mv_shape; try reflexivity;
    rewrite ncols_transpose; destruct fn;
    rewrite ?nrows_map_entries, ?nrows_mul_scalar;
    unfold mul_scalar; rewrite ?nrows_map_entries; congruence.
Qed.

Lemma apply_cost_to_vec_wrong_length_witness :
  _apply_cost_to_vec (fun _ => false) geom_a [1; 1; 1] 1 None =
  Raise shape_error.
Proof.
  apply (apply_cost_to_vec_wrong_length (fun _ => false) geom_a
           [1; 1; 1] 1 None 1).
  - reflexivity.
  - unfold shape, nrows. simpl. lia.
Defined.

Lemma linear_fn_zero (f : R -> R) : linear_fn f -> f 0 = 0.
Proof. intros [Hadd _]. pose proof (Hadd 0 0) as H. rewrite Rplus_0_r in H. lra. Qed.

Lemma linear_fn_big_sum (f : R -> R) (h : nat -> R) (n : nat) :
  linear_fn f -> f (big_sum h n) = big_sum (fun k => f (h k)) n.
Proof.
  intros Hf. induction n as [|n IH]; simpl.
  - now apply linear_fn_zero.
  - destruct Hf as [Hadd _]. now rewrite Hadd, IH.
Qed.

(** The dense implementation of the base class with a function. *)
Lemma base_apply_fn (g : LRCGeometry) (vec : list R) (axis : Z)
    (f : R -> R) :
  constructed g -> (axis = 0 \/ axis = 1)%Z ->
  length vec = axis_length g axis ->
  Geometry_apply_cost_to_vec g vec axis (Some f) =
  do C <- cost_matrix g; OK (dense_apply (map_entries f C) axis vec).
Proof.
  intros Hg Hax L.
  unfold Geometry_apply_cost_to_vec, axis_length, dense_apply in *.
  destruct (scale_cost g) as [s|e] eqn:H.
  - rewrite (cost_matrix_ok g s Hg H), !bind_OK.
    set (F := fun i j : nat => _ + _).
    destruct (axis_cases axis Hax) as [[A0 _] | [A0 _]];
      rewrite A0 in L; rewrite A0; simpl in L; cbv zeta.
    + rewrite <- dense_matvec_transpose. unfold jnp_transpose.
      rewrite !map_entries_build, !nrows_build, !ncols_build.
      rewrite ?map_entries_build.
      rewrite jnp_dot_mv_dense
        by (apply wf_build || (rewrite ncols_build; now symmetry)).
      f_equal. f_equal. apply build_ext. intros k i Hk Hi.
      now rewrite !cell_build by assumption.
    + rewrite map_entries_build.
      rewrite jnp_dot_mv_dense
        by (apply wf_build || (rewrite ncols_build; now symmetry)).
      reflexivity.
  - destruct (scale_raise_derived g e H) as (_ & _ & _ & H4).
    now rewrite H4.
Qed.

(** The fast path with a function: the function is applied to the
    factor that is transposed, and to the bias. *)
Lemma efficient_apply_fn (g : LRCGeometry) (vec : list R) (axis : Z)
    (f : R -> R) (s : R) :
  constructed g -> (axis = 0 \/ axis = 1)%Z ->
  length vec = axis_length g axis -> scale_cost g = OK s ->
  let f1 := mul_scalar (_cost_1 g) (sqrt s) in
  let f2 := mul_scalar (_cost_2 g) (sqrt s) in
  let c1 := if (axis =? 1)%Z then f1 else f2 in
  let c2 := if (axis =? 1)%Z then f2 else f1 in
  efficient_apply g vec axis (Some f) =
  OK (map (fun i =>
        big_sum (fun j =>
           (big_sum (fun k => cell c1 i k * f (cell c2 j k)) (ncols c1)
            + f (_bias g * s)) * nth j vec 0) (length vec))
      (seq 0 (nrows c1))).
Proof.
  intros (W1 & W2 & E & _) Hax L H f1 f2 c1 c2.
  assert (Wf1 : wf f1) by now apply wf_mul_scalar.
  assert (Wf2 : wf f2) by now apply wf_mul_scalar.
  unfold efficient_apply, axis_length in *.
  rewrite (cost_1_ok g s H), (cost_2_ok g s H), (bias_ok g s H).
  fold f1 f2. subst c1 c2.
  destruct (axis_cases axis Hax) as [[A0 A1] | [A0 A1]];
    rewrite A0 in L; rewrite A1, !bind_OK; cbv zeta; simpl in L.
  - rewrite fast_kernel;
      [| exact Wf2 | now apply wf_map_entries | simpl; congruence
       | rewrite nrows_map_entries; unfold f1; now rewrite nrows_mul_scalar].
    f_equal. apply map_ext_in. intros i Hi. apply in_seq in Hi.
    apply big_sum_ext. intros j Hj. f_equal. f_equal.
    apply big_sum_ext. intros k Hk.
    rewrite cell_map_entries;
      [reflexivity | exact Wf1
       | unfold f1; rewrite nrows_mul_scalar; lia | simpl in *; lia].
  - rewrite fast_kernel;
      [| exact Wf1 | now apply wf_map_entries | simpl; congruence
       | rewrite nrows_map_entries; unfold f2; now rewrite nrows_mul_scalar].
    f_equal. apply map_ext_in. intros i Hi. apply in_seq in Hi.
    apply big_sum_ext. intros j Hj. f_equal. f_equal.
    apply big_sum_ext. intros k Hk.
    rewrite cell_map_entries;
      [reflexivity | exact Wf2
       | unfold f2; rewrite nrows_mul_scalar; lia | simpl in *; lia].
Qed.

(** X8.  Vector application with a function [fn] equals the dense
    product of [fn] applied entry by entry to the cost matrix, provided
    that [is_linear] accepts [fn] only if it preserves sums and
    scalings: for an accepted [fn] the factored computation (which
    applies [fn] to one factor and to the bias) gives the dense value,
    and for a rejected one the dense value is selected. *)
Theorem apply_cost_to_vec_with_fn (is_linear : (R -> R) -> bool)
    (g : LRCGeometry) (vec : list R) (axis : Z) (f : R -> R) :
  (is_linear f = true -> linear_fn f) ->
  constructed g -> (axis = 0 \/ axis = 1)%Z ->
  length vec = axis_length g axis ->
  _apply_cost_to_vec is_linear g vec axis (Some f) =
  do C <- cost_matrix g; OK (dense_apply (map_entries f C) axis vec).
Proof.
  intros Hlin Hg Hax L. unfold _apply_cost_to_vec.
  rewrite (base_apply_fn g vec axis f Hg Hax L).
  destruct (scale_cost g) as [s|e] eqn:H.
  2:{ destruct (scale_raise_derived g e H) as (H1 & H2 & _ & H4).
      unfold efficient_apply. rewrite H1, H2, H4.
      now destruct (axis =? 1)%Z. }
  rewrite (efficient_apply_fn g vec axis f s Hg Hax L H).
  rewrite (cost_matrix_ok g s Hg H), !bind_OK. cbv zeta.
  destruct (is_linear f) eqn:Hil; [|reflexivity].
  specialize (Hlin eq_refl). pose proof Hlin as [Hadd Hhom].
  pose proof Hg as (W1 & W2 & E & _).
  unfold jnp_where. f_equal.
  rewrite map_entries_build. unfold dense_apply, axis_length in *.
  destruct (axis_cases axis Hax) as [[A0 A1] | [A0 A1]];
    rewrite A0 in L; rewrite A0, A1; simpl in L.
  - unfold dense_transpose_matvec.
    rewrite nrows_build, ncols_build, nrows_mul_scalar, L.
    apply map_ext_in. intros j Hj. apply in_seq in Hj.
    apply big_sum_ext. intros i Hi.
    rewrite cell_build by lia.
    rewrite Hadd. unfold product_entry.
    rewrite (linear_fn_big_sum f _ _ Hlin).
    f_equal. f_equal. simpl ncols. rewrite <- E.
    apply big_sum_ext. intros k _.
    rewrite <- Hhom. f_equal. ring.
  - unfold dense_matvec.
    rewrite nrows_build, ncols_build, nrows_mul_scalar, L.
    apply map_ext_in. intros i Hi. apply in_seq in Hi.
    apply big_sum_ext. intros j Hj.
    rewrite cell_build by lia.
    rewrite Hadd. unfold product_entry.
    rewrite (linear_fn_big_sum f _ _ Hlin).
    f_equal. f_equal.
    apply big_sum_ext. intros k _. now rewrite <- Hhom.
Qed.

Lemma apply_cost_to_vec_with_fn_witness :
  _apply_cost_to_vec (fun _ => true) geom_a [1; 1] 1
    (Some (fun x => 2 * x)) =
  do C <- cost_matrix geom_a;
  OK (dense_apply (map_entries (fun x => 2 * x) C) 1 [1; 1]).
Proof.
  apply (apply_cost_to_vec_with_fn (fun _ => true) geom_a [1; 1] 1
           (fun x => 2 * x)).
  - intros _. split; intros; ring.
  - exact constructed_geom_a.
  - right. reflexivity.
  - reflexivity.
Defined.

(* ================================================================== *)
(** ** The square of a biased cost *)
(* ================================================================== *)

Lemma apply_square_cost_factored (is_linear : (R -> R) -> bool)
    (g : LRCGeometry) (vec : list R) (axis : Z) (s : R) :
  constructed g ->
  ~ (fst (shape g) * snd (shape g)
     < (fst (shape g) + snd (shape g)) * cost_rank g ^ 2)%nat ->
  scale_cost g = OK s ->
  apply_square_cost is_linear g vec axis =
  Geometry_apply_cost is_linear
    (augmented_geometry (mul_scalar (_cost_1 g) (sqrt s))
                        (mul_scalar (_cost_2 g) (sqrt s))) vec axis.
Proof.
  intros (W1 & W2 & E & _) Hge H. unfold apply_square_cost.
  unfold shape in *. cbn [fst snd] in *.
  rewrite (proj2 (Nat.ltb_nlt _ _) Hge).
  rewrite (cost_1_ok g s H), (cost_2_ok g s H), !bind_OK.
  rewrite (reshape_outer _ (nrows (_cost_1 g)) (cost_rank g))
    by (apply nrows_mul_scalar || reflexivity).
  rewrite (reshape_outer _ (nrows (_cost_2 g)) (cost_rank g))
    by (apply nrows_mul_scalar || (simpl; now symmetry)).
  rewrite !bind_OK, init_augmented by (simpl; exact E).
  reflexivity.
Qed.

Lemma apply_square_cost_direct (is_linear : (R -> R) -> bool)
    (g : LRCGeometry) (vec : list R) (axis : Z) :
  (fst (shape g) * snd (shape g)
   < (fst (shape g) + snd (shape g)) * cost_rank g ^ 2)%nat ->
  apply_square_cost is_linear g vec axis =
  Geometry_apply_square_cost g vec axis.
Proof.
  intros Hlt. unfold apply_square_cost. unfold shape in *. cbn [fst snd] in *.
  now rewrite (proj2 (Nat.ltb_lt _ _) Hlt).
Qed.

(** X9.  The two strategies of [apply_square_cost] treat the bias
    differently.  The dense strategy squares the cost matrix, bias
    included.  The factored strategy, taken when
    [n * m >= (n + m) * r ^ 2], squares the product of the scaled
    factors only: the bias of the geometry does not enter the result. *)
Theorem apply_square_cost_bias (is_linear : (R -> R) -> bool)
    (g : LRCGeometry) (vec : list R) (axis : Z) :
  constructed g -> (axis = 0 \/ axis = 1)%Z ->
  length vec = axis_length g axis ->
  let n := fst (shape g) in
  let m := snd (shape g) in
  let r := cost_rank g in
  ((n * m < (n + m) * r ^ 2)%nat ->
     apply_square_cost is_linear g vec axis =
     do C <- cost_matrix g; OK (dense_apply (square_entries C) axis vec))
  /\
  (~ (n * m < (n + m) * r ^ 2)%nat ->
     forall s, scale_cost g = OK s ->
       let P := build n m
                  (product_entry (mul_scalar (_cost_1 g) (sqrt s))
                                 (mul_scalar (_cost_2 g) (sqrt s))) in
       cost_matrix g = OK (add_scalar P (_bias g * s)) /\
       apply_square_cost is_linear g vec axis =
       OK (dense_apply (square_entries P) axis vec)).
Proof.
  intros Hg Hax L n m r. split.
  - intros Hlt. rewrite (apply_square_cost_direct is_linear g vec axis Hlt).
    now apply direct_square.
  - intros Hge s H P. pose proof Hg as (W1 & W2 & E & _). split.
    + rewrite (cost_matrix_ok g s Hg H). f_equal.
      unfold add_scalar, P. now rewrite map_entries_build.
    + rewrite (apply_square_cost_factored is_linear g vec axis s Hg Hge H).
      set (f1 := mul_scalar (_cost_1 g) (sqrt s)) in *.
      set (f2 := mul_scalar (_cost_2 g) (sqrt s)) in *.
      destruct (augmented_geometry_cost f1 f2) as [Hg2 HC2];
        [now apply wf_mul_scalar | now apply wf_mul_scalar | exact E |].
      unfold Geometry_apply_cost, augmented_geometry.
      rewrite (apply_cost_ignores_kwargs _ _ _ _ (Geometry_init ∅) ∅).
      rewrite apply_cost_to_vec_dense; [| exact Hg2 | exact Hax |].
      2:{ rewrite L. unfold axis_length, shape, expansion.
          simpl. rewrite !nrows_build. unfold f1, f2.
          now rewrite !nrows_mul_scalar. }
      rewrite HC2, bind_OK. unfold P. rewrite square_entries_build.
      unfold f1 at 1, f2 at 1. rewrite !nrows_mul_scalar. reflexivity.
Qed.

Lemma constructed_geom_biased : constructed geom_biased.
Proof.
  unfold constructed, wf, geom_biased. simpl.
  repeat split; repeat constructor.
Qed.

(* ================================================================== *)

(* ================================================================== *)
(** ** Merging biased geometries *)
(* ================================================================== *)

(** X11.  [add_lrc_geom] drops the biases and the scale policies of its
    operands: the geometry it returns has bias 0 and no scale policy,
    and each entry of its cost matrix is the sum of the entries of the
    two cost matrices with the scaled biases taken off. *)
Theorem add_lrc_geom_drops_bias (g1 g2 : LRCGeometry) (s1 s2 : R) :
  constructed g1 -> constructed g2 -> shape g1 = shape g2 ->
  scale_cost g1 = OK s1 -> scale_cost g2 = OK s2 ->
  exists g C C1 C2,
    add_lrc_geom g1 g2 = OK g /\ _bias g = 0 /\ _scale_cost g = PyNone /\
    cost_matrix g = OK C /\ cost_matrix g1 = OK C1 /\ cost_matrix g2 = OK C2 /\
    forall i j, (i < fst (shape g1))%nat -> (j < snd (shape g1))%nat ->
      cell C i j =
      (cell C1 i j - _bias g1 * s1) + (cell C2 i j - _bias g2 * s2).
Proof.
  intros Hg1 Hg2 Hs H1 H2.
  pose proof (merged_cost_matrix g1 g2 s1 s2 Hg1 Hg2 Hs H1 H2) as HM.
  cbv zeta in HM.
  rewrite (add_lrc_geom_ok g1 g2 s1 s2 Hg1 Hg2 Hs H1 H2), bind_OK in HM.
  eexists. eexists. eexists. eexists.
  split; [exact (add_lrc_geom_ok g1 g2 s1 s2 Hg1 Hg2 Hs H1 H2)|].
  split; [reflexivity|]. split; [reflexivity|].
  split; [exact HM|].
  split; [exact (cost_matrix_ok g1 s1 Hg1 H1)|].
  split; [exact (cost_matrix_ok g2 s2 Hg2 H2)|].
  intros i j Hi Hj.
  rewrite !cell_build by (rewrite <- ?Hs; assumption). ring.
Qed.

(** X12.  The order of the operands of [add_lrc_geom] does not change
    the cost matrix of the result (it changes the order of the columns
    of the factors, and whose keyword parameters are kept). *)
Theorem add_lrc_geom_cost_commutes (g1 g2 : LRCGeometry) (s1 s2 : R) :
  constructed g1 -> constructed g2 -> shape g1 = shape g2 ->
  scale_cost g1 = OK s1 -> scale_cost g2 = OK s2 ->
  (do g <- add_lrc_geom g1 g2; cost_matrix g) =
  (do g <- add_lrc_geom g2 g1; cost_matrix g) /\
  exists C, (do g <- add_lrc_geom g1 g2; cost_matrix g) = OK C.
Proof.
  intros Hg1 Hg2 Hs H1 H2.
  rewrite (merged_cost_matrix g1 g2 s1 s2 Hg1 Hg2 Hs H1 H2).
  rewrite (merged_cost_matrix g2 g1 s2 s1 Hg2 Hg1 (eq_sym Hs) H2 H1).
  split; [|eauto]. rewrite Hs. f_equal.
  apply build_ext. intros i j _ _. ring.
Qed.

(* ================================================================== *)
(** ** The [max_bound] policy on factors without entries *)
(* ================================================================== *)

Lemma array_size_zero (A : ndarray) :
  wf A -> (ncols A = O \/ nrows A = O) -> array_size A = O.
Proof.
  intros W [Hc | Hr]; unfold array_size.
  - unfold wf in W. rewrite Hc in W.
    induction W as [|r rs Hr _ IH]; [reflexivity|].
    simpl. rewrite length_app, IH. lia.
  - unfold nrows in Hr. apply length_zero_iff_nil in Hr. now rewrite Hr.
Qed.

(** X13.  Under the [max_bound] policy a constructed geometry of rank 0,
    or without source points, or without target points, cannot resolve
    its scale: the maximum of an array without entries raises
    [ValueError], and with it the scaled factors, the scaled bias and
    the cost matrix. *)
Theorem max_bound_needs_entries (g : LRCGeometry) :
  constructed g -> _scale_cost g = PyStr "max_bound" ->
  (cost_rank g = O \/ fst (shape g) = O \/ snd (shape g) = O) ->
  let e := ValueError
    "zero-size array to reduction operation max which has no identity" in
  scale_cost g = Raise e /\ cost_1 g = Raise e /\ cost_2 g = Raise e /\
  bias g = Raise e /\ cost_matrix g = Raise e.
Proof.
  intros (W1 & W2 & E & _) P Hz e.
  assert (H : scale_cost g = Raise e).
  { unfold scale_cost. rewrite P.
    cbn [py_eq_str String.eqb Ascii.eqb Bool.eqb bind].
    assert (Emp : forall A, array_size A = O -> jnp_max (jnp_abs A) = Raise e).
    { intros A HA. unfold array_size, jnp_max, jnp_abs, map_entries in *.
      simpl rows. rewrite <- concat_map.
      destruct (concat (rows A)); [reflexivity | discriminate]. }
    destruct (Nat.eq_dec (array_size (_cost_1 g)) O) as [Z1|Z1].
    - now rewrite (Emp _ Z1).
    - rewrite (jnp_max_abs (_cost_1 g)) by lia. rewrite bind_OK.
      rewrite (Emp (_cost_2 g)); [reflexivity|].
      apply array_size_zero; [exact W2|].
      unfold cost_rank, shape in Hz. cbn [fst snd] in Hz.
      destruct Hz as [Hz | [Hz | Hz]].
      + left. congruence.
      + exfalso. apply Z1. apply array_size_zero; [exact W1 | now right].
      + now right. }
  destruct (scale_raise_derived g e H) as (H1 & H2 & H3 & H4).
  repeat split; assumption.
Qed.

Lemma constructed_geom_rank0 : constructed geom_rank0.
Proof.
  unfold constructed, wf, geom_rank0, no_columns. simpl.
  repeat split; repeat constructor.
Qed.

Lemma max_bound_needs_entries_witness :
  scale_cost geom_rank0 =
  Raise (ValueError
    "zero-size array to reduction operation max which has no identity").
Proof.
  apply (max_bound_needs_entries geom_rank0).
  - exact constructed_geom_rank0.
  - reflexivity.
  - left. reflexivity.
Defined.

(* ================================================================== *)
(** ** Vector application on a symmetric geometry *)
(* ================================================================== *)

Lemma same_factors_transpose (g : LRCGeometry) (C : ndarray) :
  constructed g -> _cost_1 g = _cost_2 g -> cost_matrix g = OK C ->
  jnp_transpose C = C.
Proof.
  intros Hg E HC.
  destruct (scale_cost g) as [s|e] eqn:Hs.
  - rewrite (cost_matrix_ok g s Hg Hs) in HC. injection HC as <-.
    unfold jnp_transpose. rewrite nrows_build, ncols_build, <- E.
    apply build_ext. intros k i Hk Hi.
    rewrite cell_build by assumption.
    f_equal. apply product_entry_sym.
  - destruct (scale_raise_derived g e Hs) as (_ & _ & _ & H4).
    rewrite H4 in HC. discriminate.
Qed.

(** X14.  On a constructed geometry for which [is_symmetric] holds, the
    axis makes no difference: [_apply_cost_to_vec] along axis 0 and
    along axis 1 have the same outcome, for every vector and every
    [fn]. *)
Theorem symmetric_apply_ignores_axis (is_linear : (R -> R) -> bool)
    (g : LRCGeometry) (vec : list R) (fn : option (R -> R)) :
  constructed g -> is_symmetric g = OK true ->
  _apply_cost_to_vec is_linear g vec 0 fn =
  _apply_cost_to_vec is_linear g vec 1 fn.
Proof.
  intros Hg Hsym.
  destruct (is_symmetric_decides g Hg) as [[_ E] | [H _]];
    [|rewrite H in Hsym; discriminate].
  assert (E12 : cost_1 g = cost_2 g) by (unfold cost_1, cost_2; now rewrite E).
  unfold _apply_cost_to_vec, efficient_apply, Geometry_apply_cost_to_vec.
  change (0 =? 1)%Z with false. change (1 =? 1)%Z with true.
  change (0 =? 0)%Z with true. change (1 =? 0)%Z with false.
  cbv iota. rewrite E12.
  destruct (cost_matrix g) as [C|e] eqn:HC; [|reflexivity].
  rewrite !bind_OK.
  now rewrite (same_factors_transpose g C Hg E HC).
Qed.

Lemma symmetric_apply_ignores_axis_witness :
  _apply_cost_to_vec (fun _ => false) geom_sym [1; 1] 0 None =
  _apply_cost_to_vec (fun _ => false) geom_sym [1; 1] 1 None.
Proof.
  apply (symmetric_apply_ignores_axis (fun _ => false) geom_sym [1; 1] None).
  - exact constructed_geom_sym.
  - exact is_symmetric_geom_sym.
Defined.

End Base.

(* ================================================================== *)
(** ** The properties at sample geometries and base constructors *)
(* ================================================================== *)

Example apply_square_cost_geom_b :
  apply_square_cost (fun kw => kw) (fun _ => false) geom_b [1; 1] 1 =
  OK [410].
Proof. evaluate. Qed.

Example apply_square_cost_geom_c :
  apply_square_cost (fun kw => kw) (fun _ => false) geom_c [1; 1] 0 =
  OK [45; 80].
Proof. evaluate. Qed.

Lemma apply_square_cost_is_dense_square_witness :
  apply_square_cost with_defaults (fun _ => false) geom_c [1; 1] 0 =
  (do C <- cost_matrix geom_c; OK (dense_apply (square_entries C) 0 [1; 1])).
Proof.
  apply (apply_square_cost_is_dense_square with_defaults (fun _ => false)
           geom_c [1; 1] 0).
  - exact constructed_geom_c.
  - reflexivity.
  - left. reflexivity.
  - reflexivity.
Defined.

Lemma add_lrc_geom_merges_witness :
  exists g, add_lrc_geom with_defaults geom_b geom_d = OK g /\
            cost_rank g = 3%nat /\ _kwargs g = with_defaults (_kwargs geom_b).
Proof.
  destruct (proj1 (add_lrc_geom_merges with_defaults geom_b geom_d
                     constructed_geom_b constructed_geom_d)
              eq_refl eq_refl eq_refl 1 4 eq_refl eq_refl)
    as (g & C1 & C2 & H & _ & _ & _ & _ & _ & _ & Hr & _ & Hk & _).
  exists g. split; [exact H | split; [exact Hr | exact Hk]].
Defined.

Lemma init_checks_columns_witness :
  LRCGeometry_init with_defaults
    (mk_ndarray 2 [[1; 2]]) (mk_ndarray 1 [[3]]) 0 PyNone ∅ =
  Raise AssertionError.
Proof.
  apply (init_checks_columns with_defaults
           (mk_ndarray 2 [[1; 2]]) (mk_ndarray 1 [[3]]) 0 PyNone ∅).
  - reflexivity.
  - simpl. lia.
Defined.

(** C4, as stated, fails: two factors without columns (rank 0) are
    rectangular arrays with as many columns, and the constructor
    accepts them, whatever the base constructor does with the keywords. *)
Lemma init_accepts_rank_zero :
  wf no_columns /\ ncols no_columns = O /\
  (forall e, LRCGeometry_init with_defaults no_columns no_columns 0 PyNone ∅
             <> Raise e) /\
  exists g, LRCGeometry_init with_defaults no_columns no_columns 0 PyNone ∅
            = OK g /\ cost_rank g = O.
Proof.
  split; [repeat constructor|]. split; [reflexivity|]. split.
  - intros e H. discriminate H.
  - eexists. split; reflexivity.
Qed.

Lemma max_cost_not_implemented_witness :
  scale_cost geom_max_cost =
  Raise (NotImplementedError "Scaling max_cost not implemented.").
Proof.
  apply (max_cost_not_implemented with_defaults (fun _ => false)
           geom_max_cost).
  reflexivity.
Defined.

Lemma unknown_policy_fails_lazily_witness :
  exists g,
    LRCGeometry_init with_defaults
      (mk_ndarray 1 [[2]]) (mk_ndarray 1 [[1]]) 0 (PyStr "median") ∅ = OK g /\
    scale_cost g = Raise (ValueError "Scaling median not provided.").
Proof.
  destruct (unknown_policy_fails_lazily with_defaults (fun _ => false)
              (mk_ndarray 1 [[2]]) (mk_ndarray 1 [[1]]) 0 "median" ∅)
    as (g & Hi & _ & _ & _ & Hs & _);
    try discriminate; try reflexivity.
  exists g. split; [exact Hi | exact Hs].
Defined.


Lemma apply_square_cost_bias_witness :
  apply_square_cost with_defaults (fun _ => false) geom_biased [1; 1] 1 =
  OK (dense_apply
        (square_entries
           (build 2 2 (product_entry
                         (mul_scalar (_cost_1 geom_biased) (sqrt 1))
                         (mul_scalar (_cost_2 geom_biased) (sqrt 1)))))
        1 [1; 1]).
Proof.
  refine (proj2 (proj2 (apply_square_cost_bias with_defaults (fun _ => false)
                          geom_biased [1; 1] 1 constructed_geom_biased _
                          eq_refl)
                   _ 1 eq_refl)).
  - right. reflexivity.
  - unfold shape, cost_rank, nrows. simpl. lia.
Defined.

(** The value of the factored strategy on a biased geometry, against
    the square of its cost matrix. *)
Example apply_square_cost_geom_biased :
  apply_square_cost (fun kw => kw) (fun _ => false) geom_biased [1; 1] 1
    = OK [25; 100] /\
  Geometry_apply_square_cost geom_biased [1; 1] 1 = OK [145; 290].
Proof. split; evaluate. Qed.

Lemma add_lrc_geom_drops_bias_witness :
  exists g, add_lrc_geom with_defaults geom_a geom_d = OK g /\ _bias g = 0.
Proof.
  destruct (add_lrc_geom_drops_bias with_defaults geom_a geom_d 1 4
              constructed_geom_a constructed_geom_d eq_refl eq_refl eq_refl)
    as (g & _ & _ & _ & H & Hb & _).
  exists g. split; [exact H | exact Hb].
Defined.

Lemma add_lrc_geom_cost_commutes_witness :
  (do g <- add_lrc_geom with_defaults geom_a geom_d; cost_matrix g) =
  (do g <- add_lrc_geom with_defaults geom_d geom_a; cost_matrix g).
Proof.
  apply (add_lrc_geom_cost_commutes with_defaults geom_a geom_d 1 4
           constructed_geom_a constructed_geom_d eq_refl eq_refl eq_refl).
Defined.
